(** * Identity matching and scoring engine of aadhar-verify (src/utils.py)

    A shallow embedding of the text normalizer, the name matcher, the pincode
    extractor, the address normalizer, the similarity scorer (Python's
    [difflib.SequenceMatcher], which [similarity_ratio] calls), the address
    matcher and the record resolver / score aggregator, followed by the
    properties of these functions.

    Text.  A Python [str] is modelled as a list of characters whose code
    points lie below 256 (Rocq's [ascii], read as U+0000..U+00FF); the
    character classes and the case mapping below are Python's on that range.
    Numbers.  Scores are Python floats: binary64, modelled by Rocq's
    primitive floats, operation by operation as the source writes them. *)

From Stdlib Require Import Ascii String List Bool Arith PeanoNat ZArith Lia.
From Stdlib Require Import Uint63 Floats.
Import ListNotations.

Set Implicit Arguments.
Set Warnings "-inexact-float".

(** ** Python text *)

Definition str := list ascii.

(** A string literal of the source. *)
Definition py (s : string) : str := list_ascii_of_string s.

Definition code (c : ascii) : nat := nat_of_ascii c.

Definition str_eq_dec : forall x y : str, {x = y} + {x <> y} :=
  list_eq_dec ascii_dec.

(** [x == y] on strings. *)
Definition str_eqb (x y : str) : bool :=
  if str_eq_dec x y then true else false.

(** Truthiness of a string: [not s] holds of the empty string only. *)
Definition is_empty (s : str) : bool :=
  match s with [] => true | _ :: _ => false end.

(** [x in l] on a list of strings. *)
Definition str_in (x : str) (l : list str) : bool :=
  existsb (str_eqb x) l.

Module Py.

(** [str.isspace] of one character, which is also the class [\s] of [re]
    on [str] patterns and the separator class of [str.split()] and
    [str.strip()]. *)
Definition isspace (c : ascii) : bool :=
  let n := code c in
  ((9 <=? n) && (n <=? 13)) || ((28 <=? n) && (n <=? 32))
  || (n =? 133) || (n =? 160).

(** The class [\d] of [re] on the modelled range: the ten ASCII digits. *)
Definition isdigit (c : ascii) : bool :=
  let n := code c in (48 <=? n) && (n <=? 57).

(** [string.punctuation]. *)
Definition punctuation : str :=
  "!"%char :: ascii_of_nat 34 :: py "#$%&'()*+,-./:;<=>?@[\]^_`{|}~".

Definition is_punctuation (c : ascii) : bool :=
  existsb (Ascii.eqb c) punctuation.

(** [text.translate(str.maketrans('', '', string.punctuation))]: every
    punctuation character is deleted. *)
Definition remove_punctuation (s : str) : str :=
  filter (fun c => negb (is_punctuation c)) s.

Definition lower_char (c : ascii) : ascii :=
  let n := code c in
  if ((65 <=? n) && (n <=? 90))
     || ((192 <=? n) && (n <=? 222) && negb (n =? 215))
  then ascii_of_nat (n + 32) else c.

(** [str.lower] on the modelled range, where it maps each character by
    itself.  On code points from 256 on it does not (a capital sigma is
    lowered by what stands around it): the properties below that rest on
    [lower] working character by character are stated for text of the
    modelled range only. *)
Definition lower (s : str) : str := map lower_char s.

(** [s.replace(" ", "")]: the space character U+0020 is deleted, and no
    other whitespace. *)
Definition remove_spaces (s : str) : str :=
  filter (fun c => negb (Ascii.eqb c " "%char)) s.

Fixpoint lstrip (s : str) : str :=
  match s with
  | [] => []
  | c :: t => if isspace c then lstrip t else s
  end.

Fixpoint rstrip (s : str) : str :=
  match s with
  | [] => []
  | c :: t =>
      match rstrip t with
      | [] => if isspace c then [] else [c]
      | r => c :: r
      end
  end.

(** [str.strip()]. *)
Definition strip (s : str) : str := rstrip (lstrip s).

(** [str.split()] with no separator: the maximal runs of characters that
    are not whitespace, in order.  [cur] holds the word being read,
    reversed. *)
Fixpoint split_from (cur : str) (s : str) : list str :=
  match s with
  | [] => match cur with [] => [] | _ => [rev cur] end
  | c :: t =>
      if isspace c
      then match cur with
           | [] => split_from [] t
           | _ => rev cur :: split_from [] t
           end
      else split_from (c :: cur) t
  end.

Definition split (s : str) : list str := split_from [] s.

(** [sep.join(l)]. *)
Fixpoint join (sep : str) (l : list str) : str :=
  match l with
  | [] => []
  | [w] => w
  | w :: l' => w ++ sep ++ join sep l'
  end.

(** [p.startswith(q)]. *)
Fixpoint startswith (p q : str) : bool :=
  match q, p with
  | [], _ => true
  | _ :: _, [] => false
  | d :: q', c :: p' => Ascii.eqb c d && startswith p' q'
  end.

(** [x < y] and [x <= y] on strings: lexicographic on code points. *)
Fixpoint str_ltb (x y : str) : bool :=
  match x, y with
  | _, [] => false
  | [], _ :: _ => true
  | c :: x', d :: y' =>
      (code c <? code d) || ((code c =? code d) && str_ltb x' y')
  end.

Fixpoint insert_sorted (x : str) (l : list str) : list str :=
  match l with
  | [] => [x]
  | y :: l' => if str_ltb y x then y :: insert_sorted x l' else x :: l
  end.

(** [sorted(l)] on a list of strings.  Strings that compare equal are
    equal, so the result does not depend on the sorting algorithm. *)
Definition sorted (l : list str) : list str :=
  fold_right insert_sorted [] l.

End Py.

Module re.

(** [re.sub(r'\s+', ' ', s)]: every maximal run of whitespace becomes one
    space.  [in_run] tells that the previous character was whitespace. *)
Fixpoint sub_spaces_from (in_run : bool) (s : str) : str :=
  match s with
  | [] => []
  | c :: t =>
      if Py.isspace c
      then if in_run then sub_spaces_from true t
           else " "%char :: sub_spaces_from true t
      else c :: sub_spaces_from false t
  end.

Definition sub_spaces (s : str) : str := sub_spaces_from false s.

(** [re.search(r'(\d{6})', s)]: the leftmost position at which six
    digits follow each other; [group(1)] is those six characters. *)
Fixpoint search_d6 (s : str) : option str :=
  match s with
  | [] => None
  | _ :: t =>
      let w := firstn 6 s in
      if (length w =? 6) && forallb Py.isdigit w then Some w
      else search_d6 t
  end.

End re.

(** ** Text normalizer and name matcher *)

Definition normalize_text (text : str) : str :=
  if is_empty text then []
  else
    let text := Py.remove_punctuation text in
    let text := Py.lower text in
    Py.strip (re.sub_spaces text).

(** The loop of [check_abbreviation] over [zip(parts1, parts2)]. *)
Fixpoint check_abbreviation_loop (z : list (str * str)) : bool :=
  match z with
  | [] => true
  | (p1, p2) :: z' =>
      if (length p1 =? 1) && Py.startswith p2 p1
      then check_abbreviation_loop z'
      else if (length p2 =? 1) && Py.startswith p1 p2
      then check_abbreviation_loop z'
      else if negb (str_eqb p1 p2) then false
      else check_abbreviation_loop z'
  end.

Definition check_abbreviation (parts1 parts2 : list str) : bool :=
  if negb (length parts1 =? length parts2) then false
  else check_abbreviation_loop (combine parts1 parts2).

Definition check_without_middle (parts1 parts2 : list str) : bool :=
  if (length parts1 <? 2) || (length parts2 <? 2) then false
  else str_eqb (hd [] parts1) (hd [] parts2)
       && str_eqb (last parts1 []) (last parts2 []).

Definition name_match (input_name extracted_name : str) : bool :=
  if is_empty input_name || is_empty extracted_name then false
  else
    let input_name := normalize_text input_name in
    let extracted_name := normalize_text extracted_name in
    if str_eqb input_name extracted_name then true
    else
      let input_parts := Py.split input_name in
      let extracted_parts := Py.split extracted_name in
      if check_abbreviation input_parts extracted_parts
         || check_abbreviation extracted_parts input_parts
      then true
      else if ((2 <? length input_parts)
               && check_without_middle input_parts extracted_parts)
              || ((2 <? length extracted_parts)
                  && check_without_middle extracted_parts input_parts)
      then true
      else if (length input_parts =? 1)
              && str_in (hd [] input_parts) extracted_parts
      then true
      else if (length extracted_parts =? 1)
              && str_in (hd [] extracted_parts) input_parts
      then true
      else if if list_eq_dec str_eq_dec
                   (Py.sorted input_parts) (Py.sorted extracted_parts)
              then true else false
      then true
      else if forallb (fun part => str_in part extracted_parts) input_parts
              || forallb (fun part => str_in part input_parts) extracted_parts
      then true
      else false.

(** ** Pincode extractor and address normalizer *)

Definition ADDRESS_TERMS_TO_IGNORE : list str :=
  map py
    ["road"; "street"; "lane"; "marg"; "nagar"; "colony"; "township";
     "apartment"; "flat"; "sector"; "block"; "phase"; "district"; "area";
     "near"; "behind"; "opposite"; "beside"; "next to"; "across from"]%string.

Definition extract_pincode (address : str) : str :=
  if is_empty address then []
  else
    match re.search_d6 (Py.remove_spaces address) with
    | Some pincode => pincode
    | None => []
    end.

Definition normalize_address (address : str) : str :=
  if is_empty address then []
  else
    let address := Py.lower address in
    let address := Py.remove_punctuation address in
    let address := Py.strip (re.sub_spaces address) in
    let words := Py.split address in
    let filtered_words :=
      filter (fun word => negb (str_in (Py.lower word) ADDRESS_TERMS_TO_IGNORE))
             words in
    Py.join (py " ") filtered_words.

(** ** Similarity scorer: [difflib.SequenceMatcher(None, a, b).ratio()] *)

(** [float(n)] for a length or a count [n]; lengths are below [2^63]. *)
Definition float_of_nat (n : nat) : float :=
  PrimFloat.of_uint63 (Uint63.of_Z (Z.of_nat n)).

Module difflib.

(** [Match(a=i, b=j, size=k)]. *)
Definition Match := (nat * nat * nat)%type.

Definition size (m : Match) : nat := snd m.

(** Order of tuples, as [list.sort()] compares them. *)
Definition Match_ltb (x y : Match) : bool :=
  let '(i1, j1, k1) := x in
  let '(i2, j2, k2) := y in
  (i1 <? i2) || ((i1 =? i2) && ((j1 <? j2) || ((j1 =? j2) && (k1 <? k2)))).

Fixpoint insert_Match (x : Match) (l : list Match) : list Match :=
  match l with
  | [] => [x]
  | y :: l' => if Match_ltb y x then y :: insert_Match x l' else x :: l
  end.

Definition sort (l : list Match) : list Match :=
  fold_right insert_Match [] l.

(** [_calculate_ratio(matches, length)]. *)
Definition calculate_ratio (matches length : nat) : float :=
  if negb (length =? 0)
  then (2.0 * float_of_nat matches / float_of_nat length)%float
  else 1.0%float.

Section SequenceMatcher.

(** The two sequences.  [isjunk] is [None] and [autojunk] is left at
    its default [True]. *)
Variables a b : str.

(** [a[i]] and [b[j]], read at indices within range only. *)
Definition a_at (i : nat) : ascii := nth i a Ascii.zero.
Definition b_at (j : nat) : ascii := nth j b Ascii.zero.

(** The loop of [__chain_b] that fills [b2j]: the dict maps an element
    to the list of its indices in [b], and is read with
    [b2j.get(elt, [])], so it is modelled as a total map. *)
Fixpoint chain_b_loop (i : nat) (bs : str) (b2j : ascii -> list nat)
  : ascii -> list nat :=
  match bs with
  | [] => b2j
  | elt :: bs' =>
      chain_b_loop (S i) bs'
        (fun c => if Ascii.eqb c elt then b2j c ++ [i] else b2j c)
  end.

(** [bpopular]: with at least 200 elements in [b], an element that
    occurs more than [n // 100 + 1] times is popular. *)
Definition popular (idxs : list nat) : bool :=
  let n := length b in
  (200 <=? n) && (n / 100 + 1 <? length idxs).

(** [b2j] once [__chain_b] has deleted the popular elements. *)
Definition b2j : ascii -> list nat :=
  let m := chain_b_loop 0 b (fun _ => []) in
  fun c => if popular (m c) then [] else m c.

(** [bjunk] is empty, as there is no [isjunk] function. *)
Definition isbjunk (c : ascii) : bool := false.

(** [j2len.get(j-1, 0)]; every stored length is positive. *)
Definition j2len_get_pred (j2len : nat -> nat) (j : nat) : nat :=
  match j with 0 => 0 | S j' => j2len j' end.

(** The loop over [b2j.get(a[i], nothing)] for one [i].  [i-k+1] is
    written [i + 1 - k]: [k] never exceeds [i + 1]. *)
Fixpoint inner_loop (i blo bhi : nat) (j2len : nat -> nat)
  (js : list nat) (newj2len : nat -> nat) (best : Match)
  : (nat -> nat) * Match :=
  match js with
  | [] => (newj2len, best)
  | j :: js' =>
      if j <? blo then inner_loop i blo bhi j2len js' newj2len best
      else if bhi <=? j then (newj2len, best)
      else
        let k := j2len_get_pred j2len j + 1 in
        let newj2len := fun x => if x =? j then k else newj2len x in
        let best :=
          if size best <? k then (i + 1 - k, j + 1 - k, k) else best in
        inner_loop i blo bhi j2len js' newj2len best
  end.

Definition row (blo bhi : nat) (st : (nat -> nat) * Match) (i : nat)
  : (nat -> nat) * Match :=
  inner_loop i blo bhi (fst st) (b2j (a_at i)) (fun _ => 0) (snd st).

(** The loop [for i in range(alo, ahi)]. *)
Definition longest_junk_free (alo ahi blo bhi : nat) : Match :=
  snd (fold_left (row blo bhi) (seq alo (ahi - alo))
         (fun _ => 0, (alo, blo, 0))).

(** The loops that extend the match to the left: [junk] selects the
    loop over elements that are not junk or the one over junk. *)
Fixpoint extend_left (junk : bool) (alo blo besti bestj bestsize : nat)
  : Match :=
  match besti, bestj with
  | S i', S j' =>
      if (alo <? besti) && (blo <? bestj)
         && Bool.eqb (isbjunk (b_at j')) junk
         && Ascii.eqb (a_at i') (b_at j')
      then extend_left junk alo blo i' j' (S bestsize)
      else (besti, bestj, bestsize)
  | _, _ => (besti, bestj, bestsize)
  end.

(** The loops that extend the match to the right; [room] is
    [ahi - (besti + bestsize)], which bounds the number of turns. *)
Fixpoint extend_right (junk : bool) (room bhi besti bestj bestsize : nat)
  : Match :=
  match room with
  | 0 => (besti, bestj, bestsize)
  | S room' =>
      if (bestj + bestsize <? bhi)
         && Bool.eqb (isbjunk (b_at (bestj + bestsize))) junk
         && Ascii.eqb (a_at (besti + bestsize)) (b_at (bestj + bestsize))
      then extend_right junk room' bhi besti bestj (S bestsize)
      else (besti, bestj, bestsize)
  end.

Definition find_longest_match (alo ahi blo bhi : nat) : Match :=
  let '(besti, bestj, bestsize) := longest_junk_free alo ahi blo bhi in
  let '(besti, bestj, bestsize) :=
    extend_left false alo blo besti bestj bestsize in
  let '(besti, bestj, bestsize) :=
    extend_right false (ahi - (besti + bestsize)) bhi
                 besti bestj bestsize in
  let '(besti, bestj, bestsize) :=
    extend_left true alo blo besti bestj bestsize in
  extend_right true (ahi - (besti + bestsize)) bhi besti bestj bestsize.

(** The [while queue] loop of [get_matching_blocks].  The head of
    [queue] is the end of the Python list, where [pop] and [append]
    work.  [None] when [fuel] turns do not empty the queue. *)
Fixpoint blocks_loop (fuel : nat) (queue : list (nat * nat * nat * nat))
  (matching_blocks : list Match) : option (list Match) :=
  match queue with
  | [] => Some matching_blocks
  | (alo, ahi, blo, bhi) :: queue =>
      match fuel with
      | 0 => None
      | S fuel =>
          let x := find_longest_match alo ahi blo bhi in
          let '(i, j, k) := x in
          if negb (k =? 0)
          then
            let queue :=
              if (alo <? i) && (blo <? j)
              then (alo, i, blo, j) :: queue else queue in
            let queue :=
              if (i + k <? ahi) && (j + k <? bhi)
              then (i + k, ahi, j + k, bhi) :: queue else queue in
            blocks_loop fuel queue (matching_blocks ++ [x])
          else blocks_loop fuel queue matching_blocks
      end
  end.

(** The loop that merges adjacent blocks, [(i1, j1, k1)] being the
    block compared against. *)
Fixpoint collapse_loop (l : list Match) (i1 j1 k1 : nat)
  (non_adjacent : list Match) : list Match :=
  match l with
  | [] =>
      if negb (k1 =? 0) then non_adjacent ++ [(i1, j1, k1)]
      else non_adjacent
  | (i2, j2, k2) :: l' =>
      if (i1 + k1 =? i2) && (j1 + k1 =? j2)
      then collapse_loop l' i1 j1 (k1 + k2) non_adjacent
      else
        let non_adjacent :=
          if negb (k1 =? 0) then non_adjacent ++ [(i1, j1, k1)]
          else non_adjacent in
        collapse_loop l' i2 j2 k2 non_adjacent
  end.

(** Turns that always empty the queue: a turn whose block is not
    empty takes at least one element of [a] out of the ranges that
    remain queued. *)
Definition fuel : nat := 2 * length a + 1.

Definition get_matching_blocks : list Match :=
  let la := length a in
  let lb := length b in
  let matching_blocks :=
    match blocks_loop fuel [(0, la, 0, lb)] [] with
    | Some l => l
    | None => []
    end in
  let matching_blocks := sort matching_blocks in
  let non_adjacent := collapse_loop matching_blocks 0 0 0 [] in
  non_adjacent ++ [(la, lb, 0)].

Definition ratio : float :=
  let matches := fold_right (fun triple s => size triple + s) 0
                            get_matching_blocks in
  calculate_ratio matches (length a + length b).

End SequenceMatcher.

End difflib.

Definition similarity_ratio (str1 str2 : str) : float :=
  if is_empty str1 || is_empty str2 then 0%float
  else (difflib.ratio str1 str2 * 100)%float.

(** ** Address matcher *)

Definition address_match (input_address extracted_address : str) : bool :=
  if is_empty input_address || is_empty extracted_address then false
  else
    let input_pincode := extract_pincode input_address in
    let extracted_pincode := extract_pincode extracted_address in
    let pincode_score : float :=
      if negb (is_empty input_pincode) && negb (is_empty extracted_pincode)
         && str_eqb input_pincode extracted_pincode
      then 100%float else 0%float in
    let norm_input := normalize_address input_address in
    let norm_extracted := normalize_address extracted_address in
    let similarity_score := similarity_ratio norm_input norm_extracted in
    let input_parts := Py.split norm_input in
    let extracted_parts := Py.split norm_extracted in
    let significant_parts :=
      filter (fun part => 3 <? length part) input_parts in
    let parts_score : float :=
      if negb (length significant_parts =? 0)
      then
        let matches :=
          length (filter (fun part => str_in part extracted_parts)
                         significant_parts) in
        (float_of_nat matches / float_of_nat (length significant_parts)
         * 100)%float
      else 0%float in
    let final_score : float :=
      if (0 <? pincode_score)%float
      then (0.4 * pincode_score + 0.4 * similarity_score
            + 0.2 * parts_score)%float
      else (0.6 * similarity_score + 0.4 * parts_score)%float in
    (70 <=? final_score)%float.

(** ** Record resolver and match score aggregator *)

(** [extracted_data]: the dict with the keys "name", "uid" and "address". *)
Record ExtractedIdentity := {
  name : str;
  uid : str;
  address : str
}.

(** A cell of the reference table as [pd.read_excel] gives it: a [str],
    or a value of another type (a number, a boolean, a timestamp, or the
    float [nan] for a blank cell).  Of such a value the code uses
    [str(value)] and the truth value only; calling [translate] on it, or
    [replace] with two strings, raises. *)
Inductive cell :=
| Text (s : str)
| Other (repr : str) (truth : bool).


(** [str(value)]. *)
Definition cell_str (c : cell) : str :=
  match c with
  | Text s => s
  | Other repr _ => repr
  end.

(** A row of the reference table, with the columns "UID", "Name" and
    "Address". *)
Record ReferenceRecord := {
  UID : cell;
  Name : cell;
  Address : cell
}.

(** [name_match(row["Name"], extracted_name)]; [None] when the call
    raises.  A value that is not a [str] is returned [False] for by the
    guard when it is falsy or when [extracted_name] is empty; otherwise
    [normalize_text] passes its own guard and raises at [text.translate]. *)
Definition name_match_cell (input_name : cell) (extracted_name : str)
  : option bool :=
  match input_name with
  | Text input_name => Some (name_match input_name extracted_name)
  | Other _ truth =>
      if negb truth || is_empty extracted_name then Some false else None
  end.

(** [address_match(row["Address"], extracted_address)]; [None] when the
    call raises.  A value that is not a [str] and passes the guard makes
    [extract_pincode] raise at [address.replace]. *)
Definition address_match_cell (input_address : cell) (extracted_address : str)
  : option bool :=
  match input_address with
  | Text input_address => Some (address_match input_address extracted_address)
  | Other _ truth =>
      if negb truth || is_empty extracted_address then Some false else None
  end.

(** The loop [for index, row in df.iterrows()], inside [try]: when a
    matcher raises, the handler [except Exception] returns 0. *)
Fixpoint match_rows (extracted_data : ExtractedIdentity) (extracted_uid : str)
  (rows : list ReferenceRecord) : float :=
  match rows with
  | [] => 0%float
  | row :: rows' =>
      let db_uid := Py.remove_spaces (cell_str (UID row)) in
      if str_eqb db_uid extracted_uid
      then
        match name_match_cell (Name row) (name extracted_data) with
        | None => 0%float
        | Some name_matched =>
            match address_match_cell (Address row)
                                     (address extracted_data) with
            | None => 0%float
            | Some address_matched =>
                let name_score : nat := if name_matched then 100 else 0 in
                let address_score : nat :=
                  if address_matched then 100 else 0 in
                (float_of_nat (name_score + address_score) / 2)%float
            end
        end
      else match_rows extracted_data extracted_uid rows'
  end.

(** [calculate_match_score], given the rows that [pd.read_excel] loaded. *)
Definition calculate_match_score (extracted_data : ExtractedIdentity)
  (df : list ReferenceRecord) : float :=
  if is_empty (uid extracted_data) then 0%float
  else
    let extracted_uid := Py.remove_spaces (uid extracted_data) in
    match_rows extracted_data extracted_uid df.

(** ** Definitions that follow the words of the specification *)

(** [p] is a prefix of [q]. *)
Definition prefix (p q : str) : Prop := exists r, q = p ++ r.

(** The tokens at one position agree up to an initial: they are equal, or
    one of them has length 1 and is a prefix of the other. *)
Definition abbreviates (p q : str) : Prop :=
  p = q \/ (length p = 1 /\ prefix p q) \/ (length q = 1 /\ prefix q p).

(** Removal of every whitespace character, as the specification words the
    treatment of identifiers and of addresses before the pincode search. *)
Definition remove_whitespace (s : str) : str :=
  filter (fun c => negb (Py.isspace c)) s.

(** The mean of the two sub-scores, each 100 if its boolean holds and 0
    otherwise. *)
Definition mean_score (name_matched address_matched : bool) : float :=
  (float_of_nat ((if name_matched then 100 else 0)
                 + (if address_matched then 100 else 0)) / 2)%float.

(** The score of one reference record against the extracted identity:
    the mean of the two sub-scores, or 0 when one of the matchers fails on
    a cell that is not text. *)
Definition record_score (row : ReferenceRecord) (e : ExtractedIdentity)
  : float :=
  match name_match_cell (Name row) (name e),
        address_match_cell (Address row) (address e) with
  | Some name_matched, Some address_matched =>
      mean_score name_matched address_matched
  | _, _ => 0%float
  end.

(** First-match resolution, for a given way [norm] of normalizing the
    identifiers before they are compared. *)
Definition first_match_score (norm : str -> str) (e : ExtractedIdentity)
  (df : list ReferenceRecord) : float :=
  if is_empty (uid e) then 0%float
  else
    match find (fun row => str_eqb (norm (cell_str (UID row))) (norm (uid e)))
               df with
    | Some row => record_score row e
    | None => 0%float
    end.

(** Six decimal digits stand at position [i] of [s]. *)
Definition six_digits_at (s : str) (i : nat) : Prop :=
  length (firstn 6 (skipn i s)) = 6
  /\ forallb Py.isdigit (firstn 6 (skipn i s)) = true.

(** The maximal runs of decimal digits of [s], in order; [cur] holds the
    run being read, reversed. *)
Fixpoint digit_runs_from (cur : str) (s : str) : list str :=
  match s with
  | [] => match cur with [] => [] | _ => [rev cur] end
  | c :: t =>
      if Py.isdigit c then digit_runs_from (c :: cur) t
      else match cur with
           | [] => digit_runs_from [] t
           | _ => rev cur :: digit_runs_from [] t
           end
  end.

(** The pincode as the specification words it: whitespace is removed, and
    the first run of exactly six digits is returned, or the empty string. *)
Definition pincode_as_specified (address : str) : str :=
  match find (fun r => length r =? 6)
             (digit_runs_from [] (remove_whitespace address)) with
  | Some r => r
  | None => []
  end.

(** The three partial scores and the weighted score of [address_match]. *)
Definition pincode_score (a b : str) : float :=
  if negb (is_empty (extract_pincode a)) && negb (is_empty (extract_pincode b))
     && str_eqb (extract_pincode a) (extract_pincode b)
  then 100%float else 0%float.

Definition similarity_score (a b : str) : float :=
  similarity_ratio (normalize_address a) (normalize_address b).

Definition significant_tokens (a : str) : list str :=
  filter (fun t => 3 <? length t) (Py.split (normalize_address a)).

Definition parts_score (a b : str) : float :=
  match significant_tokens a with
  | [] => 0%float
  | sig =>
      let found :=
        filter (fun t => str_in t (Py.split (normalize_address b))) sig in
      (float_of_nat (length found) / float_of_nat (length sig) * 100)%float
  end.

Definition final_score (a b : str) : float :=
  if (0 <? pincode_score a b)%float
  then (0.4 * pincode_score a b + 0.4 * similarity_score a b
        + 0.2 * parts_score a b)%float
  else (0.6 * similarity_score a b + 0.4 * parts_score a b)%float.

(** [w] is the pincode of [address]: the six digits at the leftmost
    position where six decimal digits follow each other once the space
    characters (U+0020) are removed, whatever the length of the digit run
    they start, or the empty string when there is no such position. *)
Definition pincode_of (address w : str) : Prop :=
  (w = [] /\ forall i, ~ six_digits_at (Py.remove_spaces address) i)
  \/ (exists i,
        six_digits_at (Py.remove_spaces address) i
        /\ (forall i', i' < i -> ~ six_digits_at (Py.remove_spaces address) i')
        /\ w = firstn 6 (skipn i (Py.remove_spaces address))).

(** The tokens of an address: its words, once it is lowered and its
    punctuation deleted, that are not entries of the ignore vocabulary. *)
Definition address_tokens (a : str) : list str :=
  filter (fun w => negb (str_in w ADDRESS_TERMS_TO_IGNORE))
         (Py.split (Py.remove_punctuation (Py.lower a))).

(** The number of characters of [x] that the matching blocks of
    [SequenceMatcher(None, x, y)] align with characters of [y]. *)
Definition matched_characters (x y : str) : nat :=
  list_sum (map difflib.size (difflib.get_matching_blocks x y)).

(** The weighted score of two addresses, given their pincodes [wa] and
    [wb] and their tokens [ta] and [tb].  The pincode score is 100 when
    both pincodes are non-empty and equal; the similarity score is taken
    on the tokens joined by single spaces, and is 0 when one of the two
    texts is empty; the parts score is the share of the tokens of [ta]
    longer than 3 that stand among [tb], and is 0 without such a token. *)
Definition weighted_score (wa wb : str) (ta tb : list str) : float :=
  let pincode : float :=
    if negb (is_empty wa) && negb (is_empty wb) && str_eqb wa wb
    then 100%float else 0%float in
  let na := Py.join (py " ") ta in
  let nb := Py.join (py " ") tb in
  let similarity : float :=
    if is_empty na || is_empty nb then 0%float
    else (2 * float_of_nat (matched_characters na nb)
          / float_of_nat (length na + length nb) * 100)%float in
  let significant := filter (fun t => 3 <? length t) ta in
  let parts : float :=
    match significant with
    | [] => 0%float
    | _ :: _ =>
        (float_of_nat (length (filter (fun t => str_in t tb) significant))
         / float_of_nat (length significant) * 100)%float
    end in
  if (0 <? pincode)%float
  then (0.4 * pincode + 0.4 * similarity + 0.2 * parts)%float
  else (0.6 * similarity + 0.4 * parts)%float.

(** ** Definitions used to state the lemmas *)

(** A string without whitespace. *)
Definition nonspace (w : str) : Prop :=
  Forall (fun c => Py.isspace c = false) w.

(** A word: a non-empty string without whitespace. *)
Definition word (w : str) : Prop := w <> [] /\ nonspace w.

(** A character as the normalizers leave it: no punctuation, and fixed by
    [lower]. *)
Definition normal_char (c : ascii) : Prop :=
  negb (Py.is_punctuation c) = true /\ Py.lower_char c = c.

Definition normal_charb (c : ascii) : bool :=
  negb (Py.is_punctuation c) && Ascii.eqb (Py.lower_char c) c.

Definition keep_word (word : str) : bool :=
  negb (str_in (Py.lower word) ADDRESS_TERMS_TO_IGNORE).

Definition tab : ascii := ascii_of_nat 9.

(** The indices [i + k] at which [c] stands at position [k] of [bs]. *)
Fixpoint indices_from (i : nat) (bs : str) (c : ascii) : list nat :=
  match bs with
  | [] => []
  | elt :: bs' =>
      if Ascii.eqb c elt then i :: indices_from (S i) bs' c
      else indices_from (S i) bs' c
  end.

(** [c] is not a popular element of [b], so [b2j] keeps its indices. *)
Definition unpopular (b : str) (c : ascii) : bool :=
  negb (difflib.popular b (indices_from 0 b c)).

(** The number of consecutive unpopular elements of [x] that end at
    position [t], and the same count for the position before [t]. *)
Fixpoint run (x : str) (t : nat) : nat :=
  match t with
  | 0 => if unpopular x (nth 0 x Ascii.zero) then 1 else 0
  | S t' => if unpopular x (nth t x Ascii.zero) then S (run x t') else 0
  end.

Definition run_pred (x : str) (t : nat) : nat :=
  match t with 0 => 0 | S t' => run x t' end.

(** What a row of the main loop has established once it is over. *)
Definition row_done (x : str) (i : nat) (j2len : nat -> nat)
  (best : difflib.Match) : Prop :=
  exists d sz,
    best = (d, d, sz)
    /\ d + sz <= S i
    /\ (forall t, t < S i -> run x t <= sz)
    /\ (forall j, j2len j <= run x i /\ j2len j <= run x j)
    /\ j2len i = run x i.

(** What the main loop has established before it reads row [r]. *)
Definition rows_done (x : str) (r : nat)
  (st : (nat -> nat) * difflib.Match) : Prop :=
  (forall j, difflib.j2len_get_pred (fst st) j <= run_pred x r
             /\ difflib.j2len_get_pred (fst st) j <= run_pred x j)
  /\ difflib.j2len_get_pred (fst st) r = run_pred x r
  /\ exists d sz,
       snd st = (d, d, sz) /\ d + sz <= r
       /\ forall t, t < r -> run x t <= sz.

(** The start of a block lies in the range of [a], and so does its end. *)
Definition within (alo ahi : nat) (m : difflib.Match) : Prop :=
  alo <= fst (fst m) /\ fst (fst m) + snd m <= ahi.

(** Turns that the ranges still queued can take. *)
Fixpoint turns (queue : list (nat * nat * nat * nat)) : nat :=
  match queue with
  | [] => 0
  | (alo, ahi, _, _) :: queue => 2 * (ahi - alo) + 1 + turns queue
  end.

Definition well_formed (queue : list (nat * nat * nat * nat)) : Prop :=
  Forall (fun r => fst (fst (fst r)) <= snd (fst (fst r))) queue.

(** ** Field extraction, and [calculate_match_score] on its dict *)

(** A dict with string keys, in insertion order. *)
Definition dict := list (string * str).

(** [d.get(k)]: the value at [k], if [k in d]. *)
Fixpoint dict_get (k : string) (d : dict) : option str :=
  match d with
  | [] => None
  | (k', v) :: d' => if String.eqb k' k then Some v else dict_get k d'
  end.

(** [k in d]. *)
Definition dict_has (k : string) (d : dict) : bool :=
  match dict_get k d with Some _ => true | None => false end.

(** [d[k] = v]. *)
Fixpoint dict_set (k : string) (v : str) (d : dict) : dict :=
  match d with
  | [] => [(k, v)]
  | (k', v') :: d' =>
      if String.eqb k' k then (k, v) :: d' else (k', v') :: dict_set k v d'
  end.

(** One row of [results[0].boxes.data] as [extract_text] uses it: the name
    [detector.names[class_id]] of its class, whether the region cropped
    from the image is empty, and the strings that
    [reader.readtext(gray_roi, detail=0)] reads in it. *)
Record detection := {
  field_class : string;
  roi_empty : bool;
  ocr_text : list str
}.

(** What the image library, the detector and the reader give to one call
    of [extract_text]: [cv2.imread] returns [None]; [detect_fields]
    returns [None] or an empty list; the boxes of the first result; or one
    of the calls raises an exception. *)
Inductive perception :=
| imread_none
| no_fields
| detected (boxes : list detection)
| raised.

(** The field of a box is read: its region is not empty and the reader
    returns some text for it. *)
Definition usable (bx : detection) : Prop :=
  roi_empty bx = false /\ ocr_text bx <> [].

(** [{"name": "", "uid": "", "address": ""}]. *)
Definition empty_fields : dict :=
  [("name", []); ("uid", []); ("address", [])]%string.

(** The loop of [extract_text] over the boxes. *)
Definition extract_text_loop (extracted_data : dict)
  (boxes : list detection) : dict :=
  fold_left
    (fun extracted_data result =>
       if roi_empty result then extracted_data
       else match ocr_text result with
            | [] => extracted_data
            | text => dict_set (field_class result)
                               (Py.join (py " ") text) extracted_data
            end)
    boxes extracted_data.

Definition extract_text (p : perception) : dict :=
  match p with
  | detected boxes => extract_text_loop empty_fields boxes
  | imread_none | no_fields | raised => empty_fields
  end.

(** [calculate_match_score] on the dict it receives, given the rows that
    [pd.read_excel] loaded: a missing key gives 0. *)
Definition calculate_match_score_dict (extracted_data : dict)
  (df : list ReferenceRecord) : float :=
  if negb (forallb (fun key => dict_has key extracted_data)
                   ["name"; "uid"; "address"]%string)
  then 0%float
  else
    match dict_get "name" extracted_data, dict_get "uid" extracted_data,
          dict_get "address" extracted_data with
    | Some n, Some u, Some a =>
        calculate_match_score {| name := n; uid := u; address := a |} df
    | _, _, _ => 0%float
    end.

(** ** The batch of a path, in [process_data] (src/app.py) *)

(** [s.split(sep)] for a separator of one character: the pieces between
    the separators, empty ones included.  [cur] holds the piece being
    read, reversed. *)
Fixpoint split_on_from (sep : ascii) (cur : str) (s : str) : list str :=
  match s with
  | [] => [rev cur]
  | c :: t =>
      if Ascii.eqb c sep then rev cur :: split_on_from sep [] t
      else split_on_from sep (c :: cur) t
  end.

Definition split_on (sep : ascii) (s : str) : list str :=
  split_on_from sep [] s.

(** The first steps of [process_data], for the separator [os.sep]:
    [None] stands for the response 400, and the [zip_path] and
    [excel_path] of the request are [None] when the key is missing. *)
Definition process_data_batch_id (sep : ascii)
  (zip_path excel_path : option str) : option str :=
  match zip_path, excel_path with
  | Some zip_path, Some excel_path =>
      if is_empty zip_path || is_empty excel_path then None
      else
        let path_parts := split_on sep zip_path in
        if 2 <=? length path_parts
        then Some (nth (length path_parts - 2) path_parts [])
        else None
  | _, _ => None
  end.

(** ** More definitions used to state the lemmas *)

(** The tokens of a name, as [name_match] compares them. *)
Definition tokens (name : str) : list str := Py.split (normalize_text name).

(** The first and the last token agree, [l1] has more than two tokens and
    [l2] at least two: [l2] is [l1] up to its middle names. *)
Definition middle_elided (l1 l2 : list str) : Prop :=
  2 < length l1 /\ 2 <= length l2
  /\ hd [] l1 = hd [] l2 /\ last l1 [] = last l2 [].

(** Two float values that compare different are different. *)
Ltac float_discriminate :=
  let H := fresh in
  intro H;
  match type of H with
  | ?x = ?y => apply (f_equal (fun z => PrimFloat.eqb z y)) in H
  end;
  vm_compute in H; discriminate H.

(** * Properties *)

(** ** Strings *)

Lemma str_eqb_refl (x : str) : str_eqb x x = true.
Proof. unfold str_eqb. destruct (str_eq_dec x x); congruence. Qed.

Lemma str_eqb_eq (x y : str) : str_eqb x y = true <-> x = y.
Proof.
  unfold str_eqb. destruct (str_eq_dec x y); split; congruence.
Qed.

Lemma str_eqb_neq (x y : str) : str_eqb x y = false <-> x <> y.
Proof.
  unfold str_eqb. destruct (str_eq_dec x y); split; congruence.
Qed.

Lemma is_empty_false (s : str) : s <> [] -> is_empty s = false.
Proof. destruct s; [congruence | reflexivity]. Qed.

Lemma startswith_prefix (p q : str) :
  Py.startswith q p = true <-> prefix p q.
Proof.
  revert q. induction p as [|d p IH]; intros q; destruct q as [|c q]; simpl.
  - split; [intros _; exists []; reflexivity | reflexivity].
  - split; [intros _; exists (c :: q); reflexivity | reflexivity].
  - split; [discriminate | intros [r Hr]; discriminate].
  - rewrite andb_true_iff, Ascii.eqb_eq, IH. split.
    + intros [-> [r ->]]. exists r. reflexivity.
    + intros [r Hr]. injection Hr as -> ->. split; [reflexivity|].
      exists r. reflexivity.
Qed.

(** ** Whitespace: [strip], [split], [join] and [re.sub] *)

Lemma rev_not_nil (w : str) : w <> [] -> rev w <> [].
Proof.
  destruct w as [|c w]; [congruence|]. intros _ H.
  apply (f_equal (@length ascii)) in H. simpl in H.
  rewrite length_app in H. simpl in H. lia.
Qed.

Lemma nonspace_rev (w : str) : nonspace w -> nonspace (rev w).
Proof. apply Forall_rev. Qed.

Lemma split_from_words (s cur : str) :
  nonspace cur -> Forall word (Py.split_from cur s).
Proof.
  revert cur. induction s as [|c t IH]; intros cur Hc; simpl.
  - destruct cur as [|d cur]; constructor; [|constructor].
    split; [apply rev_not_nil; discriminate | now apply nonspace_rev].
  - destruct (Py.isspace c) eqn:E.
    + destruct cur as [|d cur]; [apply IH; constructor|].
      constructor; [|apply IH; constructor].
      split; [apply rev_not_nil; discriminate | now apply nonspace_rev].
    + apply IH. constructor; assumption.
Qed.

Lemma split_words (s : str) : Forall word (Py.split s).
Proof. apply split_from_words. constructor. Qed.

Lemma split_from_app (w s cur : str) :
  nonspace w -> Py.split_from cur (w ++ s) = Py.split_from (rev w ++ cur) s.
Proof.
  revert cur. induction w as [|c w IH]; intros cur Hw; [reflexivity|].
  inversion Hw as [|? ? Hc Hw']; subst. simpl. rewrite Hc, IH by assumption.
  rewrite <- app_assoc. reflexivity.
Qed.

Lemma split_join (ws : list str) :
  Forall word ws -> Py.split (Py.join (py " ") ws) = ws.
Proof.
  unfold Py.split. induction 1 as [|w ws [Hne Hw] Hws IH]; [reflexivity|].
  destruct ws as [|w' ws].
  - simpl. rewrite <- (app_nil_r w) at 1.
    rewrite split_from_app, app_nil_r by assumption. simpl.
    destruct (rev w) eqn:E; [now apply rev_not_nil in E|].
    rewrite <- E, rev_involutive. reflexivity.
  - change (Py.join (py " ") (w :: w' :: ws))
      with (w ++ " "%char :: Py.join (py " ") (w' :: ws)).
    rewrite split_from_app, app_nil_r by assumption.
    cbn [Py.split_from]. change (Py.isspace " ") with true. cbn iota.
    destruct (rev w) eqn:E; [now apply rev_not_nil in E|].
    rewrite <- E, rev_involutive, IH. reflexivity.
Qed.

Lemma join_nil (ws : list str) :
  Forall word ws -> Py.join (py " ") ws = [] -> ws = [].
Proof.
  intros H. destruct H as [|w ws [Hne _] _]; [reflexivity|].
  destruct ws; simpl; intros E; [congruence|].
  apply app_eq_nil in E. tauto.
Qed.

Lemma rstrip_app (w u : str) :
  Py.rstrip (w ++ u) =
  match Py.rstrip u with [] => Py.rstrip w | r => w ++ r end.
Proof.
  induction w as [|c w IH]; simpl.
  - destruct (Py.rstrip u); reflexivity.
  - rewrite IH. destruct (Py.rstrip u) as [|d r]; [reflexivity|].
    destruct w; reflexivity.
Qed.

Lemma rstrip_nonspace (w : str) : nonspace w -> Py.rstrip w = w.
Proof.
  induction 1 as [|c w Hc _ IH]; simpl; [reflexivity|].
  rewrite IH, Hc. destruct w; reflexivity.
Qed.

Lemma lstrip_sub_spaces_true (s : str) :
  Py.lstrip (re.sub_spaces_from true s) = re.sub_spaces_from true s.
Proof.
  induction s as [|c t IH]; simpl; [reflexivity|].
  destruct (Py.isspace c) eqn:E; [exact IH|]. simpl. rewrite E. reflexivity.
Qed.

Lemma strip_sub_spaces_from (s : str) :
  (forall cur, cur <> [] -> nonspace cur ->
     Py.rstrip (rev cur ++ re.sub_spaces_from false s)
     = Py.join (py " ") (Py.split_from cur s))
  /\ (forall flag,
        Py.strip (re.sub_spaces_from flag s)
        = Py.join (py " ") (Py.split_from [] s)).
Proof.
  induction s as [|c t [IH1 IH2]]; split.
  - intros cur Hne Hc. simpl. rewrite app_nil_r.
    destruct cur as [|d cur]; [congruence|].
    apply rstrip_nonspace. now apply nonspace_rev.
  - intros flag. reflexivity.
  - intros cur Hne Hc. cbn [re.sub_spaces_from Py.split_from].
    destruct (Py.isspace c) eqn:E.
    + destruct cur as [|d cur]; [congruence|].
      rewrite rstrip_app. cbn [Py.rstrip].
      specialize (IH2 true). unfold Py.strip in IH2.
      rewrite lstrip_sub_spaces_true in IH2. rewrite IH2.
      pose proof (@split_from_words t [] (Forall_nil _)) as Hw.
      destruct (Py.split_from [] t) as [|w ws] eqn:Es.
      * simpl. apply rstrip_nonspace. exact (nonspace_rev Hc).
      * change (Py.join (py " ") (rev (d :: cur) :: w :: ws))
          with (rev (d :: cur) ++ " "%char :: Py.join (py " ") (w :: ws)).
        destruct (Py.join (py " ") (w :: ws)) eqn:Ej.
        { apply join_nil in Ej; [discriminate | exact Hw]. }
        reflexivity.
    + change (rev cur ++ c :: re.sub_spaces_from false t)
        with (rev cur ++ [c] ++ re.sub_spaces_from false t).
      rewrite app_assoc. change (rev cur ++ [c]) with (rev (c :: cur)).
      apply IH1; [discriminate | constructor; assumption].
  - intros flag. unfold Py.strip. cbn [re.sub_spaces_from Py.split_from].
    destruct (Py.isspace c) eqn:E.
    + transitivity (Py.strip (re.sub_spaces_from true t)); [|apply IH2].
      unfold Py.strip. destruct flag; [reflexivity|].
      cbn [Py.lstrip]. change (Py.isspace " ") with true. reflexivity.
    + assert (El : forall u, Py.lstrip (c :: u) = c :: u)
        by (intros u; simpl; rewrite E; reflexivity).
      replace (if flag then c :: re.sub_spaces_from false t
               else c :: re.sub_spaces_from false t)
        with (c :: re.sub_spaces_from false t) by (destruct flag; reflexivity).
      rewrite El. apply (IH1 [c]); [discriminate|].
      constructor; [assumption | constructor].
Qed.

(** Collapsing the whitespace and stripping the ends leaves the words,
    one space apart. *)
Lemma strip_sub_spaces (s : str) :
  Py.strip (re.sub_spaces s) = Py.join (py " ") (Py.split s).
Proof. apply (proj2 (strip_sub_spaces_from s) false). Qed.

Lemma strip_sub_spaces_join (ws : list str) :
  Forall word ws ->
  Py.strip (re.sub_spaces (Py.join (py " ") ws)) = Py.join (py " ") ws.
Proof.
  intros H. rewrite strip_sub_spaces, split_join by assumption.
  reflexivity.
Qed.

(** ** Characters kept by the normalizers *)

Section CharacterInvariant.

Variable Q : ascii -> Prop.

Lemma Forall_split_from (s cur : str) :
  Forall Q cur -> Forall Q s -> Forall (Forall Q) (Py.split_from cur s).
Proof.
  revert cur. induction s as [|c t IH]; intros cur Hc Hs; simpl.
  - destruct cur; constructor; [now apply Forall_rev | constructor].
  - inversion Hs; subst. destruct (Py.isspace c).
    + destruct cur; [apply IH; auto|].
      constructor; [now apply Forall_rev | apply IH; auto].
    + apply IH; auto.
Qed.

Lemma Forall_join (ws : list str) :
  Q " "%char -> Forall (Forall Q) ws -> Forall Q (Py.join (py " ") ws).
Proof.
  intros Hsp. induction 1 as [|w ws Hw Hws IH]; [constructor|].
  destruct ws as [|w' ws]; [exact Hw|].
  change (Py.join (py " ") (w :: w' :: ws))
    with (w ++ " "%char :: Py.join (py " ") (w' :: ws)).
  apply Forall_app. split; [exact Hw|]. constructor; assumption.
Qed.

Lemma Forall_filter_list (A : Type) (f : A -> bool) (P : A -> Prop)
  (l : list A) : Forall P l -> Forall P (filter f l).
Proof.
  induction 1 as [|x l Hx _ IH]; simpl; [constructor|].
  destruct (f x); [constructor|]; assumption.
Qed.

End CharacterInvariant.

Lemma filter_id (A : Type) (f : A -> bool) (l : list A) :
  Forall (fun x => f x = true) l -> filter f l = l.
Proof.
  induction 1 as [|x l Hx _ IH]; simpl; [reflexivity|].
  rewrite Hx, IH. reflexivity.
Qed.

Lemma map_id_on (A : Type) (g : A -> A) (l : list A) :
  Forall (fun x => g x = x) l -> map g l = l.
Proof.
  induction 1 as [|x l Hx _ IH]; simpl; [reflexivity|].
  rewrite Hx, IH. reflexivity.
Qed.

Lemma lower_char_table (c : ascii) :
  (Py.is_punctuation c || normal_charb (Py.lower_char c))
  && (Py.is_punctuation (Py.lower_char c) || negb (Py.is_punctuation c))
  = true.
Proof. destruct c as [[] [] [] [] [] [] [] []]; vm_compute; reflexivity. Qed.

Lemma normal_charb_spec (c : ascii) : normal_charb c = true -> normal_char c.
Proof.
  unfold normal_charb, normal_char. rewrite andb_true_iff, Ascii.eqb_eq.
  trivial.
Qed.

Lemma lower_char_normal (c : ascii) :
  Py.is_punctuation c = false -> normal_char (Py.lower_char c).
Proof.
  intros H. pose proof (lower_char_table c) as T.
  apply andb_true_iff in T as [T _]. rewrite H in T.
  now apply normal_charb_spec.
Qed.

Lemma lower_char_punctuation (c : ascii) :
  Py.is_punctuation (Py.lower_char c) = false -> Py.is_punctuation c = false.
Proof.
  intros H. pose proof (lower_char_table c) as T.
  apply andb_true_iff in T as [_ T]. rewrite H in T.
  now apply negb_true_iff in T.
Qed.

Lemma lower_remove_punctuation_normal (x : str) :
  Forall normal_char (Py.lower (Py.remove_punctuation x)).
Proof.
  unfold Py.lower, Py.remove_punctuation.
  induction x as [|c x IH]; simpl; [constructor|].
  destruct (Py.is_punctuation c) eqn:E; simpl; [exact IH|].
  constructor; [now apply lower_char_normal | exact IH].
Qed.

Lemma remove_punctuation_lower_normal (x : str) :
  Forall normal_char (Py.remove_punctuation (Py.lower x)).
Proof.
  unfold Py.lower, Py.remove_punctuation.
  induction x as [|c x IH]; simpl; [constructor|].
  destruct (Py.is_punctuation (Py.lower_char c)) eqn:E; simpl; [exact IH|].
  constructor; [|exact IH].
  apply lower_char_normal. now apply lower_char_punctuation.
Qed.

Lemma normal_fixed (s : str) :
  Forall normal_char s ->
  Py.remove_punctuation s = s /\ Py.lower s = s.
Proof.
  intros H. split.
  - apply filter_id. eapply Forall_impl; [|exact H]. now intros c [Hc _].
  - apply map_id_on. eapply Forall_impl; [|exact H]. now intros c [_ Hc].
Qed.

Lemma normal_space : normal_char " "%char.
Proof. split; reflexivity. Qed.

(** The words of a string of normal characters, one space apart, are
    left as they are by both normalizations of the characters and by the
    normalization of the whitespace. *)
Lemma join_words_fixed (ws : list str) :
  Forall word ws -> Forall (Forall normal_char) ws ->
  let r := Py.join (py " ") ws in
  Py.remove_punctuation r = r /\ Py.lower r = r
  /\ Py.strip (re.sub_spaces r) = r /\ Py.split r = ws.
Proof.
  intros Hw Hn r.
  destruct (normal_fixed (Forall_join normal_space Hn)) as [H1 H2].
  repeat split; [exact H1 | exact H2 | |].
  - now apply strip_sub_spaces_join.
  - now apply split_join.
Qed.

(** ** Text and address normalizers *)

Lemma normalize_text_words (x : str) :
  x <> [] ->
  normalize_text x
  = Py.join (py " ") (Py.split (Py.lower (Py.remove_punctuation x))).
Proof.
  intros Hx. unfold normalize_text. rewrite (is_empty_false Hx).
  apply strip_sub_spaces.
Qed.

Lemma normalize_text_idempotent (x : str) :
  normalize_text (normalize_text x) = normalize_text x.
Proof.
  destruct x as [|c x]; [reflexivity|].
  rewrite (@normalize_text_words (c :: x)) by discriminate.
  set (y := Py.lower (Py.remove_punctuation (c :: x))).
  assert (Hw : Forall word (Py.split y)) by apply split_words.
  assert (Hn : Forall (Forall normal_char) (Py.split y)).
  { apply Forall_split_from; [constructor|].
    apply lower_remove_punctuation_normal. }
  destruct (join_words_fixed Hw Hn) as [H1 [H2 [H3 _]]].
  unfold normalize_text.
  destruct (is_empty (Py.join (py " ") (Py.split y))) eqn:E.
  - destruct (Py.join (py " ") (Py.split y)); [reflexivity | discriminate].
  - rewrite H1, H2, H3. reflexivity.
Qed.

Lemma normalize_address_words (x : str) :
  x <> [] ->
  normalize_address x
  = Py.join (py " ")
      (filter keep_word (Py.split (Py.remove_punctuation (Py.lower x)))).
Proof.
  intros Hx. unfold normalize_address. rewrite (is_empty_false Hx).
  cbv zeta. rewrite strip_sub_spaces, split_join by apply split_words.
  reflexivity.
Qed.

Lemma filter_idem (A : Type) (f : A -> bool) (l : list A) :
  filter f (filter f l) = filter f l.
Proof.
  induction l as [|x l IH]; simpl; [reflexivity|].
  destruct (f x) eqn:E; simpl; [rewrite E, IH|]; auto.
Qed.

Lemma normalize_address_idempotent (x : str) :
  normalize_address (normalize_address x) = normalize_address x.
Proof.
  destruct x as [|c x]; [reflexivity|].
  rewrite (@normalize_address_words (c :: x)) by discriminate.
  set (y := Py.remove_punctuation (Py.lower (c :: x))).
  set (ws := filter keep_word (Py.split y)).
  assert (Hw : Forall word ws)
    by (apply Forall_filter_list, split_words).
  assert (Hn : Forall (Forall normal_char) ws).
  { apply Forall_filter_list, Forall_split_from; [constructor|].
    apply remove_punctuation_lower_normal. }
  destruct (join_words_fixed Hw Hn) as [H1 [H2 [_ H4]]].
  assert (D : Py.join (py " ") ws = [] \/ Py.join (py " ") ws <> [])
    by (destruct (Py.join (py " ") ws); [left | right]; congruence).
  destruct D as [D|D]; [rewrite D; reflexivity|].
  rewrite normalize_address_words by exact D.
  rewrite H2, H1, H4. unfold ws. rewrite filter_idem. reflexivity.
Qed.

(** C8.  Both normalizers are idempotent. *)
Theorem normalizers_idempotent (x : str) :
  normalize_text (normalize_text x) = normalize_text x
  /\ normalize_address (normalize_address x) = normalize_address x.
Proof.
  split; [apply normalize_text_idempotent | apply normalize_address_idempotent].
Qed.

(** ** Name matcher *)

Lemma check_abbreviation_loop_Forall2 (l1 l2 : list str) :
  Forall2 abbreviates l1 l2 ->
  check_abbreviation_loop (combine l1 l2) = true.
Proof.
  induction 1 as [|p q l1 l2 Hpq _ IH]; simpl; [reflexivity|].
  destruct ((length p =? 1) && Py.startswith q p) eqn:E1; [exact IH|].
  destruct ((length q =? 1) && Py.startswith p q) eqn:E2; [exact IH|].
  destruct Hpq as [-> | [[Hl Hp] | [Hl Hp]]].
  - rewrite str_eqb_refl. exact IH.
  - apply startswith_prefix in Hp. rewrite Hl, Hp in E1. discriminate.
  - apply startswith_prefix in Hp. rewrite Hl, Hp in E2. discriminate.
Qed.

Lemma check_abbreviation_Forall2 (l1 l2 : list str) :
  Forall2 abbreviates l1 l2 -> check_abbreviation l1 l2 = true.
Proof.
  intros H. unfold check_abbreviation.
  rewrite (Forall2_length H), Nat.eqb_refl. simpl.
  now apply check_abbreviation_loop_Forall2.
Qed.

(** C7.  Two non-empty names whose normalized token sequences have the
    same length and agree at every position up to an initial (the tokens
    are equal, or one has length 1 and is a prefix of the other, in either
    direction) match. *)
Theorem name_match_positional_abbreviation (a b : str) :
  a <> [] -> b <> [] ->
  Forall2 abbreviates (Py.split (normalize_text a))
                      (Py.split (normalize_text b)) ->
  name_match a b = true.
Proof.
  intros Ha Hb H. unfold name_match.
  rewrite (is_empty_false Ha), (is_empty_false Hb). cbn [orb].
  destruct (str_eqb (normalize_text a) (normalize_text b)); [reflexivity|].
  rewrite (check_abbreviation_Forall2 H). reflexivity.
Qed.

Lemma name_match_positional_abbreviation_witness :
  name_match (py "John Smith") (py "J Smith") = true.
Proof.
  apply name_match_positional_abbreviation; try discriminate.
  change (Forall2 abbreviates [py "john"; py "smith"] [py "j"; py "smith"]).
  constructor; [|constructor; [left; reflexivity | constructor]].
  right; right. split; [reflexivity | exists (py "ohn"); reflexivity].
Defined.

(** C10.  Two non-empty names that both normalize to the empty string
    match: the guard on empty input reads the raw names, and the exact
    match rule then compares two empty strings. *)
Theorem name_match_both_normalize_empty (a b : str) :
  a <> [] -> b <> [] ->
  normalize_text a = [] -> normalize_text b = [] ->
  name_match a b = true.
Proof.
  intros Ha Hb Na Nb. unfold name_match.
  rewrite (is_empty_false Ha), (is_empty_false Hb), Na, Nb. reflexivity.
Qed.

Lemma name_match_both_normalize_empty_witness :
  name_match (py "!!!") (py "???") = true.
Proof.
  apply name_match_both_normalize_empty;
    first [discriminate | reflexivity].
Defined.

(** ** Pincode extractor *)

Lemma six_digits_at_nil (i : nat) : ~ six_digits_at [] i.
Proof.
  unfold six_digits_at. rewrite skipn_nil. simpl. intros [H _]. discriminate.
Qed.

Lemma six_digits_at_cons (c : ascii) (s : str) (i : nat) :
  six_digits_at (c :: s) (S i) <-> six_digits_at s i.
Proof. unfold six_digits_at. rewrite skipn_cons. reflexivity. Qed.

Lemma search_d6_leftmost (s : str) :
  (re.search_d6 s = None /\ forall i, ~ six_digits_at s i)
  \/ (exists i, six_digits_at s i
                /\ (forall i', i' < i -> ~ six_digits_at s i')
                /\ re.search_d6 s = Some (firstn 6 (skipn i s))).
Proof.
  induction s as [|c t IH].
  - left. split; [reflexivity | exact six_digits_at_nil].
  - cbn [re.search_d6].
    destruct ((length (firstn 6 (c :: t)) =? 6)
              && forallb Py.isdigit (firstn 6 (c :: t))) eqn:E.
    + right. exists 0. apply andb_true_iff in E as [E1 E2].
      apply Nat.eqb_eq in E1. repeat split; [exact E1 | exact E2 | lia].
    + assert (H0 : ~ six_digits_at (c :: t) 0).
      { intros [H1 H2]. change (skipn 0 (c :: t)) with (c :: t) in H1, H2.
        rewrite H1, H2 in E. discriminate. }
      destruct IH as [[Hn Hall] | [i [Hi [Hmin Hs]]]].
      * left. split; [exact Hn|]. intros [|i]; [exact H0|].
        rewrite six_digits_at_cons. apply Hall.
      * right. exists (S i). split; [now apply six_digits_at_cons|].
        split; [|exact Hs].
        intros [|i'] Hlt; [exact H0|].
        rewrite six_digits_at_cons. apply Hmin. lia.
Qed.

(** C4, as the code has it.  [extract_pincode] removes the space
    characters (U+0020) of the address and returns the six digits at the
    leftmost position where six decimal digits follow each other, whatever
    the length of the digit run they start, or the empty string when there
    is no such position. *)
Theorem extract_pincode_first_six_digits (a : str) :
  let s := Py.remove_spaces a in
  (extract_pincode a = [] /\ forall i, ~ six_digits_at s i)
  \/ (exists i, six_digits_at s i
                /\ (forall i', i' < i -> ~ six_digits_at s i')
                /\ extract_pincode a = firstn 6 (skipn i s)).
Proof.
  intros s. unfold extract_pincode. destruct a as [|c a].
  - left. split; [reflexivity | exact six_digits_at_nil].
  - cbn [is_empty]. fold s.
    destruct (search_d6_leftmost s) as [[Hn Hall] | [i [Hi [Hmin Hs]]]].
    + left. rewrite Hn. split; [reflexivity | exact Hall].
    + right. exists i. rewrite Hs. repeat split; auto; apply Hi.
Qed.

(** C4 as stated fails twice: a run of seven digits is the source of the
    pincode, and a tab between the digits is not removed. *)
Lemma extract_pincode_exactly_six_counterexample :
  extract_pincode (py "1234567") = py "123456"
  /\ pincode_as_specified (py "1234567") = []
  /\ extract_pincode (py "560" ++ ascii_of_nat 9 :: py "001") = []
  /\ pincode_as_specified (py "560" ++ ascii_of_nat 9 :: py "001")
     = py "560001".
Proof. repeat split; reflexivity. Qed.

(** ** Binary64 arithmetic of the ratio *)

Section Binary64.

Local Open Scope Z_scope.

Lemma digits2_pos_iter (p k : positive) :
  digits2_pos (Pos.iter xO p k) = (digits2_pos p + k)%positive.
Proof.
  induction k as [|k IH] using Pos.peano_ind.
  - simpl. now rewrite Pos.add_1_r.
  - rewrite Pos.iter_succ. simpl. rewrite IH. lia.
Qed.

Lemma digits2_pos_bound (p : positive) (k : nat) :
  Zpos p < 2 ^ Z.of_nat k -> Zpos (digits2_pos p) <= Z.of_nat k.
Proof.
  revert k. induction p as [p IH|p IH|]; intros k H.
  - destruct k as [|k]; [simpl in H; lia|].
    rewrite Nat2Z.inj_succ, Z.pow_succ_r in H by lia.
    specialize (IH k). simpl digits2_pos. lia.
  - destruct k as [|k]; [simpl in H; lia|].
    rewrite Nat2Z.inj_succ, Z.pow_succ_r in H by lia.
    specialize (IH k). simpl digits2_pos. lia.
  - destruct k as [|k]; [simpl in H; lia|]. simpl. lia.
Qed.

Lemma binary_round_aux_exact (m : positive) (e : Z) :
  Zpos (digits2_pos m) = 53 -> -1074 <= e <= 971 ->
  binary_round_aux 53 1024 false (Zpos m) e loc_Exact = S754_finite false m e.
Proof.
  intros Hd He. unfold binary_round_aux, shr_fexp.
  cbn [Zdigits2 shr_record_of_loc]. rewrite Hd.
  replace (fexp 53 1024 (53 + e) - e) with 0 by (unfold fexp, emin; lia).
  cbn [shr shr_m loc_of_shr_record round_nearest_even Zdigits2
       shr_record_of_loc].
  rewrite Hd.
  replace (fexp 53 1024 (53 + e) - e) with 0 by (unfold fexp, emin; lia).
  cbn [shr shr_m].
  replace (e <=? 1024 - 53) with true by (symmetry; apply Z.leb_le; lia).
  reflexivity.
Qed.

Lemma binary_normalize_pos (p : positive) :
  Zpos (digits2_pos p) <= 53 ->
  binary_normalize 53 1024 (Zpos p) 0 false
  = S754_finite false (Pos.shiftl p (Z.to_N (53 - Zpos (digits2_pos p))))
                (Zpos (digits2_pos p) - 53).
Proof.
  intros Hd. cbn [binary_normalize]. unfold binary_round.
  set (D := Zpos (digits2_pos p)) in *.
  replace (fexp 53 1024 (D + 0)) with (D - 53) by (unfold fexp, emin; lia).
  unfold shl_align. destruct (D - 53 - 0) as [|k|k] eqn:E.
  - assert (HD : D = 53) by lia. rewrite HD.
    cbn [Z.sub Z.add Z.opp Z.pos_sub Z.to_N Pos.shiftl].
    apply binary_round_aux_exact; [exact HD | lia].
  - lia.
  - replace (53 - D) with (Zpos k) by lia. cbn [Z.to_N Pos.shiftl].
    apply binary_round_aux_exact; [|lia].
    rewrite digits2_pos_iter. fold D. lia.
Qed.

Lemma SFmul_two (m : positive) (e : Z) :
  Zpos (digits2_pos m) = 53 -> -1074 <= e + 1 <= 971 ->
  SFmul 53 1024 (S754_finite false 4503599627370496 (-51))
        (S754_finite false m e)
  = S754_finite false m (e + 1).
Proof.
  intros Hd He. cbn [SFmul xorb]. unfold binary_round_aux, shr_fexp.
  cbn [Pos.mul Zdigits2 digits2_pos shr_record_of_loc].
  injection Hd as Hd. rewrite Hd. 
  cbn [Pos.succ].
  replace (fexp 53 1024 (105 + (-51 + e)) - (-51 + e)) with 52
    by (unfold fexp, emin; lia).
  cbn [shr SpecFloat.iter_pos shr_1 orb shr_m loc_of_shr_record
       round_nearest_even Zdigits2]. rewrite Hd.
  replace (fexp 53 1024 (53 + (-51 + e + 52)) - (-51 + e + 52)) with 0
    by (unfold fexp, emin; lia).
  cbn [shr shr_m].
  replace (-51 + e + 52 <=? 1024 - 53) with true
    by (symmetry; apply Z.leb_le; lia).
  f_equal. lia.
Qed.

Lemma SFdiv_self (s : bool) (m : positive) (e : Z) :
  SFdiv 53 1024 (S754_finite s m e) (S754_finite s m e)
  = S754_finite false 4503599627370496 (-52).
Proof.
  cbn [SFdiv]. unfold SFdiv_core_binary.
  replace (Zdigits2 (Zpos m) + e - (Zdigits2 (Zpos m) + e)) with 0 by lia.
  replace (e - e) with 0 by lia.
  change (Z.min (fexp 53 1024 0) 0) with (-53).
  change (0 - -53) with 53.
  assert (E : Z.div_eucl (Z.shiftl (Zpos m) 53) (Zpos m) = (2 ^ 53, 0)).
  { rewrite Z.shiftl_mul_pow2 by lia.
    transitivity ((Zpos m * 2 ^ 53) / Zpos m, (Zpos m * 2 ^ 53) mod Zpos m).
    - unfold Z.div, Z.modulo.
      destruct (Z.div_eucl (Zpos m * 2 ^ 53) (Zpos m)); reflexivity.
    - rewrite Z.mul_comm, Z.div_mul, Z.mod_mul by lia. reflexivity. }
  cbv iota.
  change (IntDef.Z.div_eucl (IntDef.Z.shiftl (Z.pos m) 53) (Z.pos m))
    with (Z.div_eucl (Z.shiftl (Z.pos m) 53) (Z.pos m)).
  rewrite E.
  replace (new_location (Zpos m) 0) with loc_Exact.
  2:{ unfold new_location. destruct (Z.even (Zpos m)); reflexivity. }
  destruct s; reflexivity.
Qed.

Lemma shiftl_xO (p : positive) (s : N) :
  Pos.shiftl p~0 s = Pos.shiftl p (N.succ s).
Proof.
  destruct s as [|q]; [reflexivity|].
  cbn [N.succ Pos.shiftl]. now rewrite Pos.iter_succ_r.
Qed.

Lemma digits2_pos_shiftl (p : positive) (s : N) :
  Zpos (digits2_pos (Pos.shiftl p s)) = Zpos (digits2_pos p) + Z.of_N s.
Proof.
  destruct s as [|q]; cbn [Pos.shiftl Z.of_N]; [lia|].
  rewrite digits2_pos_iter. lia.
Qed.

Lemma ratio_of_self (n : nat) :
  (0 < n)%nat -> Z.of_nat n < 2 ^ 52 ->
  (2.0 * float_of_nat n / float_of_nat (n + n))%float = 1%float.
Proof.
  intros Hn Hb. unfold float_of_nat.
  destruct (Z.of_nat n) as [|p|p] eqn:Ep; try lia.
  assert (Ep2 : Z.of_nat (n + n) = Zpos p~0) by lia.
  rewrite Ep2.
  assert (Hd : Zpos (digits2_pos p) <= 52)
    by (apply (@digits2_pos_bound p 52%nat); lia).
  set (x := of_uint63 (of_Z (Zpos p))).
  set (y := of_uint63 (of_Z (Zpos p~0))).
  assert (Hx : Prim2SF x = binary_normalize 53 1024 (Zpos p) 0 false).
  { unfold x. rewrite of_uint63_spec, of_Z_spec, Z.mod_small; [reflexivity|].
    change wB with (2 ^ 63). lia. }
  assert (Hy : Prim2SF y = binary_normalize 53 1024 (Zpos p~0) 0 false).
  { unfold y. rewrite of_uint63_spec, of_Z_spec, Z.mod_small; [reflexivity|].
    change wB with (2 ^ 63). lia. }
  rewrite binary_normalize_pos in Hx by lia.
  rewrite binary_normalize_pos in Hy by (cbn [digits2_pos]; lia).
  set (D := Zpos (digits2_pos p)) in *.
  rewrite shiftl_xO in Hy.
  replace (N.succ (Z.to_N (53 - Zpos (digits2_pos p~0))))
    with (Z.to_N (53 - D)) in Hy by (cbn [digits2_pos]; lia).
  replace (Zpos (digits2_pos p~0) - 53) with (D - 53 + 1) in Hy
    by (cbn [digits2_pos]; lia).
  assert (E : (2 * x)%float = y).
  { apply Prim2SF_inj. rewrite mul_spec, Hx, Hy.
    change (Prim2SF 2) with (S754_finite false 4503599627370496 (-51)).
    apply SFmul_two; [|lia].
    rewrite digits2_pos_shiftl. fold D. lia. }
  rewrite E. apply Prim2SF_inj. rewrite div_spec, Hy.
  apply SFdiv_self.
Qed.

End Binary64.

(** ** Record resolver and aggregator *)



Lemma match_rows_find (e : ExtractedIdentity) (u : str)
  (df : list ReferenceRecord) :
  match_rows e u df =
  match find (fun row => str_eqb (Py.remove_spaces (cell_str (UID row))) u)
             df with
  | Some row => record_score row e
  | None => 0%float
  end.
Proof.
  induction df as [|row df IH]; cbn [match_rows find]; [reflexivity|].
  destruct (str_eqb (Py.remove_spaces (cell_str (UID row))) u); [|exact IH].
  unfold record_score.
  destruct (name_match_cell _ _) as [nm|]; [|reflexivity].
  destruct (address_match_cell _ _) as [am|]; reflexivity.
Qed.

Lemma calculate_match_score_find (e : ExtractedIdentity)
  (df : list ReferenceRecord) :
  calculate_match_score e df = first_match_score Py.remove_spaces e df.
Proof.
  unfold calculate_match_score, first_match_score.
  destruct (is_empty (uid e)); [reflexivity | apply match_rows_find].
Qed.




(** C5, as the code has it.  The resolver removes the space characters
    (U+0020) of both identifiers before it compares them: the record that
    is scored is the first of the table whose identifier equals the
    extracted one up to spaces, the records before it, whose identifiers
    differ from it even up to spaces, being passed over. *)
Theorem resolver_ignores_spaces (e : ExtractedIdentity)
  (pre : list ReferenceRecord) (row : ReferenceRecord)
  (rest : list ReferenceRecord) :
  uid e <> [] ->
  (forall r, In r pre ->
     Py.remove_spaces (cell_str (UID r)) <> Py.remove_spaces (uid e)) ->
  Py.remove_spaces (cell_str (UID row)) = Py.remove_spaces (uid e) ->
  calculate_match_score e (pre ++ row :: rest) = record_score row e.
Proof.
  intros Hu Hpre Heq. rewrite calculate_match_score_find.
  unfold first_match_score. rewrite (is_empty_false Hu).
  induction pre as [|r pre IH]; cbn [app find].
  - rewrite Heq, str_eqb_refl. reflexivity.
  - rewrite (proj2 (str_eqb_neq _ _) (Hpre r (or_introl eq_refl))).
    apply IH. intros r' Hr'. apply Hpre. now right.
Qed.

Lemma resolver_ignores_spaces_witness :
  let e := {| name := py "R Kumar"; uid := py "1234 5678 9012";
              address := py "12 M G Road Pune 411001" |} in
  let other := {| UID := Text (py "9999 0000 1111");
                  Name := Text (py "Asha Rao");
                  Address := Text (py "4 Hill Road, Pune, 411002") |} in
  let row := {| UID := Text (py "12345 6789012");
                Name := Text (py "Ravi Kumar");
                Address := Text (py "12 MG Road, Pune, 411001") |} in
  calculate_match_score e ([other] ++ row :: [other]) = record_score row e.
Proof.
  intros e other row. apply resolver_ignores_spaces.
  - discriminate.
  - intros r [<-|[]]. vm_compute. discriminate.
  - reflexivity.
Defined.

(** C5 as stated fails for whitespace other than spaces: the two
    identifiers are equal once every whitespace character is removed, the
    name and the address match, and the resolver finds no record. *)
Lemma resolver_whitespace_counterexample :
  let e := {| name := py "Ravi Kumar"; uid := py "123456789012";
              address := py "12 MG Road, Pune, 411001" |} in
  let row := {| UID := Text (py "1234" ++ tab :: py "5678" ++ tab :: py "9012");
                Name := Text (py "Ravi Kumar");
                Address := Text (py "12 MG Road, Pune, 411001") |} in
  remove_whitespace (cell_str (UID row)) = remove_whitespace (uid e)
  /\ record_score row e = 100%float
  /\ calculate_match_score e [row] = 0%float.
Proof. repeat split; vm_compute; reflexivity. Qed.

(** ** Address matcher *)

Lemma address_match_final_score (a b : str) :
  address_match a b =
  if is_empty a || is_empty b then false
  else (70 <=? final_score a b)%float.
Proof.
  unfold address_match, final_score, parts_score, similarity_score,
    pincode_score, significant_tokens.
  destruct (is_empty a || is_empty b); [reflexivity|].
  destruct (filter (fun t => 3 <? length t) (Py.split (normalize_address a)));
    reflexivity.
Qed.

(** ** [SequenceMatcher]: the index [b2j] *)

Lemma chain_b_loop_indices (bs : str) (i : nat) (m : ascii -> list nat)
  (c : ascii) :
  difflib.chain_b_loop i bs m c = m c ++ indices_from i bs c.
Proof.
  revert i m. induction bs as [|elt bs IH]; intros i m; simpl.
  - now rewrite app_nil_r.
  - rewrite IH. destruct (Ascii.eqb c elt); [|reflexivity].
    now rewrite <- app_assoc.
Qed.

Lemma b2j_indices (b : str) (c : ascii) :
  difflib.b2j b c =
  if difflib.popular b (indices_from 0 b c) then []
  else indices_from 0 b c.
Proof. unfold difflib.b2j. rewrite chain_b_loop_indices. reflexivity. Qed.

Lemma indices_from_In (bs : str) (i j : nat) (c : ascii) :
  In j (indices_from i bs c) ->
  i <= j < i + length bs /\ nth (j - i) bs Ascii.zero = c.
Proof.
  revert i. induction bs as [|elt bs IH]; intros i; simpl; [tauto|].
  destruct (Ascii.eqb c elt) eqn:E.
  - intros [<- | H].
    + apply Ascii.eqb_eq in E. rewrite Nat.sub_diag. split; [lia | auto].
    + apply IH in H as [H1 H2]. split; [lia|].
      replace (j - i) with (S (j - S i)) by lia. exact H2.
  - intros H. apply IH in H as [H1 H2]. split; [lia|].
    replace (j - i) with (S (j - S i)) by lia. exact H2.
Qed.

Lemma indices_from_app (pre post : str) (i : nat) (c : ascii) :
  indices_from i (pre ++ post) c
  = indices_from i pre c ++ indices_from (i + length pre) post c.
Proof.
  revert i. induction pre as [|elt pre IH]; intros i; simpl.
  - now rewrite Nat.add_0_r.
  - rewrite IH, <- plus_n_Sm. destruct (Ascii.eqb c elt); reflexivity.
Qed.

(** The indices of the element at position [i] of [b]: those below [i],
    then [i], then the others. *)
Lemma indices_from_nth (b : str) (i : nat) :
  i < length b ->
  exists S1 S2,
    indices_from 0 b (nth i b Ascii.zero) = S1 ++ i :: S2
    /\ forall j, In j S1 -> j < i.
Proof.
  intros Hi.
  pose proof (firstn_skipn i b) as E.
  destruct (skipn i b) as [|c post] eqn:Es.
  { apply (f_equal (@length ascii)) in Es. rewrite length_skipn in Es.
    simpl in Es. lia. }
  assert (Hl : length (firstn i b) = i) by (rewrite length_firstn; lia).
  assert (Hc : nth i b Ascii.zero = c).
  { rewrite <- E, app_nth2 by lia. rewrite Hl, Nat.sub_diag. reflexivity. }
  rewrite Hc.
  replace (indices_from 0 b c)
    with (indices_from 0 (firstn i b ++ c :: post) c) by (now rewrite E).
  rewrite indices_from_app. simpl. rewrite Ascii.eqb_refl, Hl.
  eexists _, _. split; [reflexivity|].
  intros j Hj. apply indices_from_In in Hj. lia.
Qed.

(** ** [SequenceMatcher]: a sequence against itself *)

Section SelfComparison.

Variable x : str.

Let n := length x.
Let at_ (i : nat) : ascii := nth i x Ascii.zero.

Lemma run_eq (t : nat) :
  run x t = if unpopular x (at_ t) then S (run_pred x t) else 0.
Proof. destruct t; reflexivity. Qed.

Lemma run_le (t : nat) : run x t <= S t.
Proof.
  induction t as [|t IH]; simpl.
  - destruct (unpopular x _); lia.
  - destruct (unpopular x _); lia.
Qed.

Lemma b2j_unpopular (c : ascii) :
  difflib.b2j x c = if unpopular x c then indices_from 0 x c else [].
Proof.
  rewrite b2j_indices. unfold unpopular.
  destruct (difflib.popular x _); reflexivity.
Qed.

Lemma inner_loop_self (i : nat) (old : nat -> nat) (S : list nat) :
  unpopular x (at_ i) = true ->
  (forall j, In j S -> j < n /\ at_ j = at_ i) ->
  (forall j, difflib.j2len_get_pred old j <= run_pred x i
             /\ difflib.j2len_get_pred old j <= run_pred x j) ->
  difflib.j2len_get_pred old i = run_pred x i ->
  forall (newj : nat -> nat) (d sz : nat),
    d + sz <= Datatypes.S i ->
    (forall t, t < i -> run x t <= sz) ->
    (forall j, newj j <= run x i /\ newj j <= run x j) ->
    ((newj i = run x i /\ run x i <= sz)
     \/ (exists S1 S2, S = S1 ++ i :: S2 /\ forall j, In j S1 -> j < i)) ->
    let r := difflib.inner_loop i 0 n old S newj (d, d, sz) in
    row_done x i (fst r) (snd r).
Proof.
  intros Hu HS Hold Hdiag. pose proof (run_eq i) as Ri. rewrite Hu in Ri.
  induction S as [|j S' IH]; intros newj d sz Hb Hlt Hnew D r.
  - destruct D as [[D1 D2] | [S1 [S2 [E _]]]].
    + exists d, sz. repeat split; try apply Hnew; auto.
      intros t Ht. destruct (Nat.eq_dec t i) as [->|]; [exact D2|].
      apply Hlt. lia.
    + destruct S1; discriminate.
  - destruct (HS j (or_introl eq_refl)) as [Hj Hat].
    assert (Rj : run x j = Datatypes.S (run_pred x j))
      by (rewrite run_eq, Hat, Hu; reflexivity).
    subst r. cbn [difflib.inner_loop].
    replace (j <? 0) with false by (symmetry; apply Nat.ltb_ge; lia).
    replace (n <=? j) with false by (symmetry; apply Nat.leb_gt; lia).
    set (k := difflib.j2len_get_pred old j + 1).
    destruct (Hold j) as [K1 K2].
    assert (Hki : k <= run x i) by (unfold k; lia).
    assert (Hkj : k <= run x j) by (unfold k; lia).
    assert (Hnew' : forall j', (if j' =? j then k else newj j') <= run x i
                               /\ (if j' =? j then k else newj j') <= run x j').
    { intros j'. destruct (Nat.eqb_spec j' j) as [->|]; [lia | apply Hnew]. }
    assert (HS' : forall j', In j' S' -> j' < n /\ at_ j' = at_ i)
      by (intros j' Hin; apply HS; now right).
    cbn [difflib.size snd].
    destruct D as [[D1 D2] | [S1 [S2 [E Hlt1]]]].
    + replace (sz <? k) with false by (symmetry; apply Nat.ltb_ge; lia).
      apply IH; auto. left. split; [|exact D2].
      destruct (Nat.eqb_spec i j) as [<-|]; [unfold k; lia | exact D1].
    + destruct S1 as [|j1 S1]; injection E as -> ->.
      * assert (Hk : k = run x i) by (unfold k; lia).
        pose proof (run_le i) as Hle.
        destruct (sz <? k) eqn:Eu.
        -- apply IH; auto; try lia.
           ++ intros t Ht. apply Nat.ltb_lt in Eu. specialize (Hlt t Ht). lia.
           ++ left. rewrite Nat.eqb_refl. lia.
        -- apply Nat.ltb_ge in Eu. apply IH; auto.
           left. rewrite Nat.eqb_refl. lia.
      * assert (Hji : j1 < i) by (apply Hlt1; now left).
        pose proof (Hlt j1 Hji) as Hr.
        replace (sz <? k) with false by (symmetry; apply Nat.ltb_ge; lia).
        apply IH; auto. right. exists S1, S2. split; [reflexivity|].
        intros j' Hin. apply Hlt1. now right.
Qed.

Lemma row_done_next (i : nat) (st : (nat -> nat) * difflib.Match) :
  row_done x i (fst st) (snd st) -> rows_done x (S i) st.
Proof.
  intros [d [sz [Hb [Hd [Hr [Hj Hi]]]]]]. split; [|split].
  - intros j. destruct j as [|j]; simpl; [lia | apply Hj].
  - exact Hi.
  - exists d, sz. auto.
Qed.

Lemma row_self (i : nat) (st : (nat -> nat) * difflib.Match) :
  i < n -> rows_done x i st ->
  row_done x i (fst (difflib.row x x 0 n st i))
             (snd (difflib.row x x 0 n st i)).
Proof.
  intros Hi [Hold [Hdiag [d [sz [Hb [Hd Hr]]]]]].
  unfold difflib.row, difflib.a_at. fold (at_ i).
  rewrite b2j_unpopular, Hb.
  destruct (unpopular x (at_ i)) eqn:Hu.
  - destruct (indices_from_nth x Hi) as [S1 [S2 [E Hlt]]].
    apply inner_loop_self; auto; try lia.
    + intros j Hin. apply indices_from_In in Hin as [H1 H2].
      rewrite Nat.sub_0_r in H2. split; [apply H1 | exact H2].
    + right. exists S1, S2. split; [exact E | exact Hlt].
  - exists d, sz. cbn [difflib.inner_loop fst snd].
    assert (R0 : run x i = 0) by (rewrite run_eq, Hu; reflexivity).
    repeat split; try lia.
    intros t Ht. destruct (Nat.eq_dec t i) as [->|]; [lia|].
    apply Hr. lia.
Qed.

Lemma main_loop_self (r : nat) :
  r <= n ->
  rows_done x r (fold_left (difflib.row x x 0 n) (seq 0 r)
                         (fun _ => 0, (0, 0, 0))).
Proof.
  induction r as [|r IH]; intros Hr.
  - split; [|split].
    + intros j. destruct j; simpl; lia.
    + reflexivity.
    + exists 0, 0. split; [reflexivity|]. split; [lia | intros t Ht; lia].
  - rewrite seq_S, fold_left_app. cbn [fold_left Nat.add].
    apply row_done_next, row_self; [lia | apply IH; lia].
Qed.

Lemma extend_left_self (d sz : nat) :
  difflib.extend_left x x false 0 0 d d sz = (0, 0, sz + d).
Proof.
  revert sz. induction d as [|d IH]; intros sz; cbn [difflib.extend_left].
  - now rewrite Nat.add_0_r.
  - unfold difflib.a_at, difflib.b_at, difflib.isbjunk.
    rewrite Ascii.eqb_refl. cbn [Nat.ltb Nat.leb andb Bool.eqb].
    fold (difflib.a_at x). rewrite IH. f_equal. lia.
Qed.

Lemma extend_right_self (room sz : nat) :
  sz + room = n ->
  difflib.extend_right x x false room n 0 0 sz = (0, 0, n).
Proof.
  revert sz. induction room as [|room IH]; intros sz Hn;
    cbn [difflib.extend_right].
  - f_equal. lia.
  - unfold difflib.a_at, difflib.b_at, difflib.isbjunk.
    rewrite Ascii.eqb_refl. cbn [Nat.add Bool.eqb].
    replace (sz <? n) with true by (symmetry; apply Nat.ltb_lt; lia).
    cbn [andb]. apply IH. lia.
Qed.

(** Against itself, the longest match of a sequence is the whole
    sequence, whichever of its elements are popular. *)
Lemma find_longest_match_self :
  difflib.find_longest_match x x 0 n 0 n = (0, 0, n).
Proof.
  unfold difflib.find_longest_match, difflib.longest_junk_free.
  rewrite Nat.sub_0_r.
  destruct (main_loop_self (Nat.le_refl n))
    as [_ [_ [d [sz [Hb [Hd _]]]]]].
  rewrite Hb, extend_left_self.
  rewrite extend_right_self by lia.
  cbn [difflib.extend_left Nat.add]. rewrite Nat.sub_diag. reflexivity.
Qed.

Lemma blocks_loop_self (fuel : nat) :
  n <> 0 ->
  difflib.blocks_loop x x (S fuel) [(0, n, 0, n)] [] = Some [(0, 0, n)].
Proof.
  intros Hn. cbn [difflib.blocks_loop]. rewrite find_longest_match_self.
  rewrite (proj2 (Nat.eqb_neq n 0) Hn).
  change (0 <? 0) with false. change (0 + n) with n.
  rewrite Nat.ltb_irrefl. destruct fuel; reflexivity.
Qed.

Lemma get_matching_blocks_self :
  x <> [] -> difflib.get_matching_blocks x x = [(0, 0, n); (n, n, 0)].
Proof.
  intros Hx. assert (Hn : n <> 0) by (subst n; destruct x; simpl; congruence).
  unfold difflib.get_matching_blocks, difflib.fuel.
  fold n. replace (2 * n + 1) with (S (2 * n)) by lia.
  rewrite blocks_loop_self by exact Hn.
  cbn [difflib.sort fold_right difflib.insert_Match difflib.collapse_loop].
  change (0 + 0 =? 0) with true. cbn [andb].
  change (0 + n) with n. rewrite (proj2 (Nat.eqb_neq n 0) Hn).
  reflexivity.
Qed.

Lemma ratio_self :
  x <> [] -> difflib.ratio x x = difflib.calculate_ratio n (n + n).
Proof.
  intros Hx. unfold difflib.ratio. rewrite get_matching_blocks_self by exact Hx.
  cbn [fold_right difflib.size snd]. rewrite !Nat.add_0_r. reflexivity.
Qed.

End SelfComparison.

(** ** [SequenceMatcher]: the queue of [get_matching_blocks] empties *)

Section MatchingBlocksTerminate.

Variables a b : str.

Lemma inner_loop_within (i alo blo bhi : nat) (old : nat -> nat) :
  alo <= i ->
  (forall j, difflib.j2len_get_pred old j <= i - alo) ->
  forall (js : list nat) (newj : nat -> nat) (best : difflib.Match),
    within alo (S i) best ->
    (forall j, newj j <= S i - alo) ->
    let r := difflib.inner_loop i blo bhi old js newj best in
    within alo (S i) (snd r) /\ forall j, fst r j <= S i - alo.
Proof.
  intros Hi Hold. induction js as [|j js IH]; intros newj best Hb Hn r.
  - split; assumption.
  - subst r. cbn [difflib.inner_loop].
    destruct (j <? blo); [apply IH; assumption|].
    destruct (bhi <=? j); [split; assumption|].
    pose proof (Hold j) as Hk.
    apply IH.
    + destruct (difflib.size best <? difflib.j2len_get_pred old j + 1);
        [|exact Hb].
      unfold within. cbn [fst snd]. lia.
    + intros j'. destruct (j' =? j); [lia | apply Hn].
Qed.

Lemma main_loop_within (alo blo bhi r : nat) :
  let st := fold_left (difflib.row a b blo bhi) (seq alo r)
                      (fun _ => 0, (alo, blo, 0)) in
  within alo (alo + r) (snd st) /\ forall j, fst st j <= r.
Proof.
  induction r as [|r [IHb IHj]]; intros st.
  - subst st. split; [|intros j; apply Nat.le_refl].
    unfold within. cbn [fst snd seq fold_left]. lia.
  - subst st. rewrite seq_S, fold_left_app. cbn [fold_left].
    set (st := fold_left (difflib.row a b blo bhi) (seq alo r)
                         (fun _ => 0, (alo, blo, 0))) in *.
    unfold difflib.row.
    destruct (@inner_loop_within (alo + r) alo blo bhi (fst st)
                (Nat.le_add_r alo r)) with
      (js := difflib.b2j b (difflib.a_at a (alo + r)))
      (newj := fun _ : nat => 0) (best := snd st) as [Hb Hj].
    + intros j. replace (alo + r - alo) with r by lia.
      destruct j as [|j]; cbn [difflib.j2len_get_pred]; [lia | apply IHj].
    + destruct IHb as [H1 H2]. split; [exact H1 | lia].
    + intros j. lia.
    + split.
      * destruct Hb as [H1 H2]. split; [exact H1 | lia].
      * intros j. specialize (Hj j). lia.
Qed.

Lemma extend_left_within (junk : bool) (alo blo ahi : nat) :
  forall besti bestj bestsize,
    within alo ahi (besti, bestj, bestsize) ->
    within alo ahi (difflib.extend_left a b junk alo blo besti bestj bestsize).
Proof.
  induction besti as [|i IH]; intros bestj bestsize Hw;
    cbn [difflib.extend_left]; [exact Hw|].
  destruct bestj as [|j]; [exact Hw|].
  destruct (alo <? S i) eqn:E; cbn [andb]; [|exact Hw].
  destruct ((blo <? S j)
            && Bool.eqb (difflib.isbjunk (difflib.b_at b j)) junk
            && Ascii.eqb (difflib.a_at a i) (difflib.b_at b j));
    [|exact Hw].
  apply IH. apply Nat.ltb_lt in E. destruct Hw as [H1 H2].
  unfold within in *. cbn [fst snd] in *. lia.
Qed.

Lemma extend_right_within (junk : bool) (alo ahi bhi besti bestj : nat) :
  forall room bestsize,
    alo <= besti -> besti + bestsize + room <= ahi ->
    within alo ahi
      (difflib.extend_right a b junk room bhi besti bestj bestsize).
Proof.
  induction room as [|room IH]; intros bestsize H1 H2;
    cbn [difflib.extend_right].
  - unfold within. cbn [fst snd]. lia.
  - destruct ((bestj + bestsize <? bhi)
              && Bool.eqb
                   (difflib.isbjunk (difflib.b_at b (bestj + bestsize))) junk
              && Ascii.eqb (difflib.a_at a (besti + bestsize))
                           (difflib.b_at b (bestj + bestsize))).
    + apply IH; lia.
    + unfold within. cbn [fst snd]. lia.
Qed.

(** The block that [find_longest_match] returns lies in [a[alo:ahi]]. *)
Lemma find_longest_match_within (alo ahi blo bhi : nat) :
  alo <= ahi ->
  within alo ahi (difflib.find_longest_match a b alo ahi blo bhi).
Proof.
  intros Hle. unfold difflib.find_longest_match, difflib.longest_junk_free.
  destruct (main_loop_within alo blo bhi (ahi - alo)) as [H0 _].
  replace (alo + (ahi - alo)) with ahi in H0 by lia.
  destruct (snd (fold_left _ _ _)) as [[i0 j0] k0].
  pose proof (@extend_left_within false alo blo ahi i0 j0 k0 H0) as H1.
  destruct (difflib.extend_left a b false alo blo i0 j0 k0) as [[i1 j1] k1].
  assert (H2 : within alo ahi
                 (difflib.extend_right a b false (ahi - (i1 + k1)) bhi
                    i1 j1 k1)).
  { destruct H1 as [H1 H1']. cbn [fst snd] in *.
    apply extend_right_within; lia. }
  destruct (difflib.extend_right a b false (ahi - (i1 + k1)) bhi i1 j1 k1)
    as [[i2 j2] k2].
  pose proof (@extend_left_within true alo blo ahi i2 j2 k2 H2) as H3.
  destruct (difflib.extend_left a b true alo blo i2 j2 k2) as [[i3 j3] k3].
  destruct H3 as [H3 H3']. cbn [fst snd] in *.
  apply extend_right_within; lia.
Qed.

Lemma blocks_loop_returns (fuel : nat) :
  forall queue blocks,
    well_formed queue -> turns queue <= fuel ->
    exists l, difflib.blocks_loop a b fuel queue blocks = Some l.
Proof.
  induction fuel as [|fuel IH]; intros queue blocks Hwf Hf.
  - destruct queue as [|[[[alo ahi] blo] bhi] queue].
    + exists blocks. reflexivity.
    + cbn [turns] in Hf. lia.
  - destruct queue as [|[[[alo ahi] blo] bhi] queue].
    + exists blocks. reflexivity.
    + inversion Hwf as [|? ? Hle Hwf']; subst. cbn [fst snd] in Hle.
      cbn [difflib.blocks_loop turns] in *.
      pose proof (@find_longest_match_within alo ahi blo bhi Hle) as Hw.
      destruct (difflib.find_longest_match a b alo ahi blo bhi)
        as [[i j] k].
      destruct Hw as [H1 H2]. cbn [fst snd] in H1, H2.
      destruct (k =? 0) eqn:Ek; cbn [negb].
      * apply IH; [exact Hwf' | lia].
      * apply Nat.eqb_neq in Ek.
        destruct ((alo <? i) && (blo <? j)), ((i + k <? ahi) && (j + k <? bhi));
          apply IH;
          try (repeat (constructor; cbn [fst snd]; try lia); exact Hwf');
          cbn [turns]; lia.
Qed.

(** X13.  The loop of [get_matching_blocks], which [similarity_ratio]
    runs through [ratio], comes to its end on every pair of strings: the
    queue of ranges is empty after at most [2 * len(a) + 1] turns, each
    turn that finds a block taking at least one element of [a] out of the
    ranges that remain. *)
Lemma get_matching_blocks_returns :
  exists l,
    difflib.blocks_loop a b (difflib.fuel a)
      [(0, length a, 0, length b)] [] = Some l.
Proof.
  apply blocks_loop_returns.
  - constructor; [cbn [fst snd]; lia | constructor].
  - unfold difflib.fuel. cbn [turns]. lia.
Qed.

End MatchingBlocksTerminate.

(** ** Similarity scorer *)

Lemma similarity_ratio_same (x : str) :
  x <> [] -> (Z.of_nat (length x) < 2 ^ 52)%Z ->
  similarity_ratio x x = 100%float.
Proof.
  intros Hx Hb. unfold similarity_ratio.
  rewrite (is_empty_false Hx). cbn [orb].
  rewrite ratio_self by exact Hx. unfold difflib.calculate_ratio.
  assert (Hn : 0 < length x) by (destruct x; simpl; [congruence | lia]).
  replace (length x + length x =? 0) with false
    by (symmetry; apply Nat.eqb_neq; lia).
  cbn [negb]. rewrite ratio_of_self by assumption. reflexivity.
Qed.

(** C3, as the code has it.  A non-empty string is 100% similar to
    itself; the length is bounded so that the floats hold it exactly. *)
Theorem similarity_ratio_self (x : str) :
  x <> [] -> (Z.of_nat (length x) < 2 ^ 52)%Z ->
  similarity_ratio x x = 100%float.
Proof.
  intros Hx Hb. unfold similarity_ratio.
  rewrite (is_empty_false Hx). cbn [orb].
  (* the matching blocks of [x] against [x] are the whole of [x] *)
  rewrite ratio_self by exact Hx. unfold difflib.calculate_ratio.
  assert (Hn : 0 < length x) by (destruct x; simpl; [congruence | lia]).
  replace (length x + length x =? 0) with false
    by (symmetry; apply Nat.eqb_neq; lia).
  (* 2.0 * n / (n + n) is 1.0 in binary64, and 1.0 * 100 is 100.0 *)
  cbn [negb]. rewrite ratio_of_self by assumption. reflexivity.
Qed.

Lemma similarity_ratio_self_witness :
  similarity_ratio (py "abc def") (py "abc def") = 100%float.
Proof.
  apply similarity_ratio_self; [discriminate | vm_compute; reflexivity].
Defined.

(** C2, as the code has it.  The two orders of the arguments agree when
    one of the strings is empty or when the strings are equal. *)
Theorem similarity_ratio_symmetric_cases (x y : str) :
  x = [] \/ y = [] \/ x = y ->
  similarity_ratio x y = similarity_ratio y x.
Proof.
  intros [-> | [-> | ->]]; [| |reflexivity]; unfold similarity_ratio.
  - cbn [is_empty orb]. now rewrite orb_true_r.
  - cbn [is_empty orb]. now rewrite orb_true_r.
Qed.

Lemma similarity_ratio_symmetric_cases_witness :
  similarity_ratio [] (py "diet") = similarity_ratio (py "diet") [].
Proof. apply similarity_ratio_symmetric_cases. left. reflexivity. Defined.

(** C3 as stated fails on the empty string, which scores 0. *)
Lemma similarity_ratio_empty_counterexample :
  similarity_ratio [] [] = 0%float /\ similarity_ratio [] [] <> 100%float.
Proof. split; [reflexivity | float_discriminate]. Qed.

(** C2 as stated fails: the order of the arguments matters. *)
Lemma similarity_ratio_symmetry_counterexample :
  similarity_ratio (py "tide") (py "diet") = 25%float
  /\ similarity_ratio (py "diet") (py "tide") = 50%float
  /\ similarity_ratio (py "tide") (py "diet")
     <> similarity_ratio (py "diet") (py "tide").
Proof.
  repeat split; try (vm_compute; reflexivity).
  float_discriminate.
Qed.


(** ** Address matcher against itself *)

Lemma join_cons_length (sep w : str) (l : list str) :
  length (Py.join sep (w :: l))
  = length w + match l with
               | [] => 0
               | _ :: _ => length sep + length (Py.join sep l)
               end.
Proof.
  destruct l; cbn [Py.join]; [lia|].
  rewrite !length_app. reflexivity.
Qed.

Lemma join_split_from_length (s cur : str) :
  length (Py.join (py " ") (Py.split_from cur s)) <= length cur + length s.
Proof.
  revert cur. induction s as [|c t IH]; intros cur; cbn [Py.split_from].
  - destruct cur; cbn [Py.join]; [simpl; lia|].
    rewrite length_rev. lia.
  - destruct (Py.isspace c).
    + destruct cur as [|d cur].
      * specialize (IH []). simpl in *. lia.
      * rewrite join_cons_length, length_rev. specialize (IH []).
        destruct (Py.split_from [] t); simpl in *; lia.
    + specialize (IH (c :: cur)). simpl in *. lia.
Qed.

Lemma join_filter_length (f : str -> bool) (ws : list str) :
  length (Py.join (py " ") (filter f ws)) <= length (Py.join (py " ") ws).
Proof.
  induction ws as [|w ws IH]; [simpl; lia|].
  rewrite (join_cons_length _ w ws). cbn [filter].
  destruct (f w).
  - rewrite join_cons_length.
    destruct (filter f ws) eqn:E; destruct ws; simpl in *; try lia.
    discriminate.
  - destruct ws; simpl in *; lia.
Qed.

Lemma normalize_address_length (x : str) :
  length (normalize_address x) <= length x.
Proof.
  destruct x as [|c x]; [simpl; lia|].
  rewrite normalize_address_words by discriminate.
  etransitivity; [apply join_filter_length|].
  etransitivity; [apply join_split_from_length|].
  unfold Py.remove_punctuation, Py.lower. change (length []) with 0.
  rewrite Nat.add_0_l.
  etransitivity; [apply filter_length_le|]. rewrite length_map.
  apply Nat.le_refl.
Qed.







Example name_match_abbrev :
  name_match (py "John Smith") (py "J Smith") = true.
Proof. reflexivity. Qed.
Example name_match_middle :
  name_match (py "John Michael Smith") (py "John Smith") = true.
Proof. reflexivity. Qed.
Example name_match_single :
  name_match (py "Smith") (py "John Smith") = true.
Proof. reflexivity. Qed.
Example name_match_reorder :
  name_match (py "Smith John") (py "John Smith") = true.
Proof. reflexivity. Qed.
Example name_match_no :
  name_match (py "Alice") (py "Bob") = false.
Proof. reflexivity. Qed.
Example extract_pincode_ex :
  extract_pincode (py "123 Main St, 560001") = py "560001".
Proof. reflexivity. Qed.
Example normalize_address_ex :
  normalize_address (py "12, MG  Road,  Near Park ") = py "12 mg park".
Proof. reflexivity. Qed.
Example ratio_tide_diet :
  similarity_ratio (py "tide") (py "diet") = 25%float
  /\ similarity_ratio (py "diet") (py "tide") = 50%float.
Proof. split; vm_compute; reflexivity. Qed.

Example calculate_match_score_ex :
  calculate_match_score
    {| name := py "R Kumar"; uid := py "1234 5678 9012";
       address := py "12 M G Road Pune 411001" |}
    [{| UID := Text (py "123456789012"); Name := Text (py "Ravi Kumar");
        Address := Text (py "12 MG Road, Pune, 411001") |}]
  = 100%float.
Proof. vm_compute. reflexivity. Qed.

(** * Further properties of the matchers *)

(** ** Name matcher: the rules as a whole *)

Lemma str_eqb_sym (x y : str) : str_eqb x y = str_eqb y x.
Proof.
  unfold str_eqb. destruct (str_eq_dec x y), (str_eq_dec y x); congruence.
Qed.

(** The six rules of [name_match], each as the test the source makes. *)
Lemma name_match_orb (a b : str) :
  name_match a b =
  negb (is_empty a || is_empty b)
  && (str_eqb (normalize_text a) (normalize_text b)
      || (check_abbreviation (tokens a) (tokens b)
          || check_abbreviation (tokens b) (tokens a))
      || ((2 <? length (tokens a))
          && check_without_middle (tokens a) (tokens b)
          || (2 <? length (tokens b))
             && check_without_middle (tokens b) (tokens a))
      || (length (tokens a) =? 1) && str_in (hd [] (tokens a)) (tokens b)
      || (length (tokens b) =? 1) && str_in (hd [] (tokens b)) (tokens a)
      || (if list_eq_dec str_eq_dec (Py.sorted (tokens a))
                                    (Py.sorted (tokens b))
          then true else false)
      || (forallb (fun part => str_in part (tokens b)) (tokens a)
          || forallb (fun part => str_in part (tokens a)) (tokens b))).
Proof.
  unfold name_match, tokens.
  destruct (is_empty a || is_empty b); [reflexivity|]. cbv zeta. cbn [negb andb].
  destruct (str_eqb (normalize_text a) (normalize_text b)); [reflexivity|].
  cbn [orb].
  destruct (check_abbreviation _ _ || check_abbreviation _ _); [reflexivity|].
  cbn [orb].
  destruct ((2 <? _) && check_without_middle _ _
            || (2 <? _) && check_without_middle _ _); [reflexivity|].
  cbn [orb].
  destruct ((length _ =? 1) && str_in _ _); [reflexivity|]. cbn [orb].
  destruct ((length _ =? 1) && str_in _ _); [reflexivity|]. cbn [orb].
  destruct (list_eq_dec str_eq_dec _ _); [reflexivity|]. cbn [orb].
  destruct (forallb _ _ || forallb _ _); reflexivity.
Qed.

(** X1.  [name_match] does not depend on the order of its two arguments:
    every rule is tried in both directions. *)
Theorem name_match_symmetric (a b : str) :
  name_match a b = name_match b a.
Proof.
  rewrite !name_match_orb.
  rewrite (orb_comm (is_empty b)), (str_eqb_sym (normalize_text b)).
  rewrite (orb_comm (check_abbreviation (tokens b) (tokens a))).
  rewrite (orb_comm ((2 <? length (tokens b)) && _)).
  rewrite (orb_comm (forallb (fun part => str_in part (tokens a)) (tokens b))).
  destruct (list_eq_dec str_eq_dec (Py.sorted (tokens a)) (Py.sorted (tokens b)))
    as [E|E];
    destruct (list_eq_dec str_eq_dec (Py.sorted (tokens b))
                          (Py.sorted (tokens a))) as [E'|E'];
    try congruence;
    destruct ((length (tokens a) =? 1) && str_in (hd [] (tokens a)) (tokens b)),
             ((length (tokens b) =? 1) && str_in (hd [] (tokens b)) (tokens a));
    repeat rewrite ?orb_true_r, ?orb_false_r, ?orb_true_l, ?orb_false_l,
                   ?andb_true_r, ?andb_false_r;
    reflexivity.
Qed.

(** X2.  A non-empty name matches itself. *)
Theorem name_match_reflexive (a : str) :
  a <> [] -> name_match a a = true.
Proof.
  intros Ha. rewrite name_match_orb, (is_empty_false Ha), str_eqb_refl.
  reflexivity.
Qed.

Lemma name_match_reflexive_witness :
  name_match (py "Ravi Kumar") (py "Ravi Kumar") = true.
Proof. apply name_match_reflexive. discriminate. Defined.

Lemma abbreviates_sym (p q : str) : abbreviates p q -> abbreviates q p.
Proof. unfold abbreviates. intuition auto. Qed.

Lemma Forall2_abbreviates_sym (l1 l2 : list str) :
  Forall2 abbreviates l1 l2 -> Forall2 abbreviates l2 l1.
Proof.
  induction 1; constructor; [now apply abbreviates_sym | assumption].
Qed.

Lemma check_abbreviation_loop_sound (l1 l2 : list str) :
  length l1 = length l2 ->
  check_abbreviation_loop (combine l1 l2) = true ->
  Forall2 abbreviates l1 l2.
Proof.
  revert l2. induction l1 as [|p l1 IH]; intros [|q l2] Hl H;
    try discriminate Hl; [constructor|].
  injection Hl as Hl. cbn [combine check_abbreviation_loop] in H.
  assert (Hpq : abbreviates p q /\ check_abbreviation_loop (combine l1 l2) = true).
  { destruct ((length p =? 1) && Py.startswith q p) eqn:E1.
    { apply andb_true_iff in E1 as [E1 E1'].
      apply Nat.eqb_eq in E1. apply startswith_prefix in E1'.
      split; [right; left; auto | exact H]. }
    destruct ((length q =? 1) && Py.startswith p q) eqn:E2.
    { apply andb_true_iff in E2 as [E2 E2'].
      apply Nat.eqb_eq in E2. apply startswith_prefix in E2'.
      split; [right; right; auto | exact H]. }
    destruct (str_eqb p q) eqn:E3; [|discriminate H].
    apply str_eqb_eq in E3. split; [left; exact E3 | exact H]. }
  destruct Hpq as [Hpq Hrest]. constructor; [exact Hpq | now apply IH].
Qed.

Lemma check_abbreviation_iff (l1 l2 : list str) :
  check_abbreviation l1 l2 = true <-> Forall2 abbreviates l1 l2.
Proof.
  split; [|apply check_abbreviation_Forall2].
  unfold check_abbreviation.
  destruct (length l1 =? length l2) eqn:E; [|discriminate].
  apply Nat.eqb_eq in E. now apply check_abbreviation_loop_sound.
Qed.

Lemma middle_rule_iff (l1 l2 : list str) :
  (2 <? length l1) && check_without_middle l1 l2 = true
  <-> middle_elided l1 l2.
Proof.
  unfold check_without_middle, middle_elided.
  rewrite andb_true_iff, Nat.ltb_lt. split.
  - intros [H1 H2].
    destruct ((length l1 <? 2) || (length l2 <? 2)) eqn:E; [discriminate|].
    apply orb_false_iff in E as [_ E]. apply Nat.ltb_ge in E.
    apply andb_true_iff in H2 as [H2 H3].
    apply str_eqb_eq in H2, H3. auto.
  - intros [H1 [H2 [H3 H4]]]. split; [exact H1|].
    replace (length l1 <? 2) with false by (symmetry; apply Nat.ltb_ge; lia).
    replace (length l2 <? 2) with false by (symmetry; apply Nat.ltb_ge; lia).
    cbn [orb]. rewrite H3, H4, !str_eqb_refl. reflexivity.
Qed.

Lemma str_in_In (x : str) (l : list str) : str_in x l = true <-> In x l.
Proof.
  unfold str_in. rewrite existsb_exists. split.
  - intros [y [Hy E]]. apply str_eqb_eq in E. now subst.
  - intros H. exists x. split; [exact H | apply str_eqb_refl].
Qed.

Lemma contained_iff (l1 l2 : list str) :
  forallb (fun part => str_in part l2) l1 = true <-> incl l1 l2.
Proof.
  rewrite forallb_forall. unfold incl.
  split; intros H x Hx; apply str_in_In; auto.
Qed.

Lemma In_insert_sorted (x y : str) (l : list str) :
  In y (Py.insert_sorted x l) <-> y = x \/ In y l.
Proof.
  induction l as [|z l IH]; simpl; [intuition auto|].
  destruct (Py.str_ltb z x); simpl; rewrite ?IH; intuition auto.
Qed.

Lemma In_sorted (y : str) (l : list str) : In y (Py.sorted l) <-> In y l.
Proof.
  unfold Py.sorted. induction l as [|x l IH]; simpl; [tauto|].
  rewrite In_insert_sorted, IH. intuition auto.
Qed.

Lemma single_token_contained (l1 l2 : list str) :
  (length l1 =? 1) && str_in (hd [] l1) l2 = true -> incl l1 l2.
Proof.
  intros H. apply andb_true_iff in H as [H1 H2].
  apply Nat.eqb_eq in H1. apply str_in_In in H2.
  destruct l1 as [|t [|? ?]]; try discriminate H1.
  intros x [<- | []]. exact H2.
Qed.

(** X3.  What [name_match] decides.  Two names match exactly when both
    are non-empty and their normal forms are equal, or their tokens agree
    position by position up to initials, or one is the other up to middle
    names, or every token of one is a token of the other.  The rule on a
    single token and the rule on reordered tokens add nothing to the last
    rule, which contains them. *)
Theorem name_match_rules (a b : str) :
  name_match a b = true <->
  a <> [] /\ b <> []
  /\ (normalize_text a = normalize_text b
      \/ Forall2 abbreviates (tokens a) (tokens b)
      \/ middle_elided (tokens a) (tokens b)
      \/ middle_elided (tokens b) (tokens a)
      \/ incl (tokens a) (tokens b)
      \/ incl (tokens b) (tokens a)).
Proof.
  rewrite name_match_orb, andb_true_iff, negb_true_iff, orb_false_iff.
  assert (Ne : forall s : str, is_empty s = false <-> s <> [])
    by (intros [|c s]; simpl; split; congruence).
  rewrite !Ne, !orb_true_iff, str_eqb_eq, !check_abbreviation_iff,
    !middle_rule_iff, !contained_iff.
  split.
  - intros [[Ha Hb] H]. split; [exact Ha|]. split; [exact Hb|].
    destruct H as [[[[[[H|[H|H]]|[H|H]]|H]|H]|H]|[H|H]]; auto.
    + right; left. now apply Forall2_abbreviates_sym.
    + apply single_token_contained in H. auto 7.
    + apply single_token_contained in H. auto 7.
    + destruct (list_eq_dec str_eq_dec _ _) as [E|]; [|discriminate].
      right; right; right; right; left.
      intros x Hx. apply In_sorted. rewrite <- E. now apply In_sorted.
    + auto 7.
    + auto 7.
  - intros [Ha [Hb H]]. split; [auto|].
    destruct H as [H|[H|[H|[H|[H|H]]]]]; auto 10.
Qed.

Lemma name_match_contained (a b : str) :
  a <> [] -> b <> [] ->
  incl (tokens a) (tokens b) \/ incl (tokens b) (tokens a) ->
  name_match a b = true.
Proof.
  intros Ha Hb H. rewrite name_match_orb.
  rewrite (is_empty_false Ha), (is_empty_false Hb).
  destruct H as [H|H]; apply contained_iff in H; rewrite H;
    rewrite ?orb_true_r; reflexivity.
Qed.

(** X4.  A non-empty name of which normalization leaves nothing (one made
    of punctuation and whitespace) matches every non-empty name: it has no
    token, so all of its tokens are tokens of the other name. *)
Theorem name_match_blank_matches_all (a b : str) :
  a <> [] -> b <> [] -> normalize_text a = [] ->
  name_match a b = true /\ name_match b a = true.
Proof.
  intros Ha Hb Na.
  assert (H : incl (tokens a) (tokens b)).
  { unfold tokens. rewrite Na. intros x []. }
  split; apply name_match_contained; auto.
Qed.

Lemma name_match_blank_matches_all_witness :
  name_match (py "...") (py "Ravi Kumar") = true
  /\ name_match (py "Ravi Kumar") (py "...") = true.
Proof.
  apply name_match_blank_matches_all;
    first [discriminate | reflexivity].
Defined.

(** ** Normalizers: case, shape of the result, and how they compose *)

Lemma lower_char_table2 (c : ascii) :
  Ascii.eqb (Py.lower_char (Py.lower_char c)) (Py.lower_char c)
  && Bool.eqb (Py.is_punctuation (Py.lower_char c)) (Py.is_punctuation c)
  = true.
Proof. destruct c as [[] [] [] [] [] [] [] []]; vm_compute; reflexivity. Qed.

Lemma lower_char_idempotent (c : ascii) :
  Py.lower_char (Py.lower_char c) = Py.lower_char c.
Proof.
  pose proof (lower_char_table2 c) as T.
  apply andb_true_iff in T as [T _]. now apply Ascii.eqb_eq in T.
Qed.

Lemma is_punctuation_lower_char (c : ascii) :
  Py.is_punctuation (Py.lower_char c) = Py.is_punctuation c.
Proof.
  pose proof (lower_char_table2 c) as T.
  apply andb_true_iff in T as [_ T]. now apply Bool.eqb_prop in T.
Qed.

Lemma lower_idempotent (s : str) : Py.lower (Py.lower s) = Py.lower s.
Proof.
  unfold Py.lower. rewrite map_map. apply map_ext.
  apply lower_char_idempotent.
Qed.

Lemma remove_punctuation_lower (s : str) :
  Py.remove_punctuation (Py.lower s) = Py.lower (Py.remove_punctuation s).
Proof.
  unfold Py.remove_punctuation, Py.lower.
  induction s as [|c s IH]; simpl; [reflexivity|].
  rewrite is_punctuation_lower_char.
  destruct (Py.is_punctuation c); simpl; now rewrite IH.
Qed.

Lemma is_empty_lower (s : str) : is_empty (Py.lower s) = is_empty s.
Proof. destruct s; reflexivity. Qed.

Lemma normalize_text_lower (x : str) :
  normalize_text (Py.lower x) = normalize_text x.
Proof.
  unfold normalize_text.
  rewrite is_empty_lower, remove_punctuation_lower, lower_idempotent.
  reflexivity.
Qed.

(** X5.  On names whose characters are code points below 256, where
    [str.lower] maps character by character, [name_match] does not see
    the case of the letters: lowering either name leaves the decision as
    it is. *)
Theorem name_match_case_insensitive (a b : str) :
  name_match (Py.lower a) b = name_match a b
  /\ name_match a (Py.lower b) = name_match a b.
Proof.
  split; unfold name_match;
    rewrite is_empty_lower, normalize_text_lower; reflexivity.
Qed.

Lemma normalize_text_tokens_normal (x : str) :
  Forall word (Py.split (Py.lower (Py.remove_punctuation x)))
  /\ Forall (Forall normal_char)
            (Py.split (Py.lower (Py.remove_punctuation x))).
Proof.
  split; [apply split_words|].
  apply Forall_split_from; [constructor|].
  apply lower_remove_punctuation_normal.
Qed.

(** X6.  The shape of a normalized text: it holds no punctuation and no
    character that [lower] would change, and it is its own words joined
    by single spaces, so that it neither starts nor ends with whitespace
    and holds no whitespace but single spaces between words. *)
Theorem normalize_text_shape (x : str) :
  let r := normalize_text x in
  Forall (fun c => Py.is_punctuation c = false /\ Py.lower_char c = c) r
  /\ r = Py.join (py " ") (Py.split r)
  /\ Forall (fun w => w <> [] /\ Forall (fun c => Py.isspace c = false) w)
            (Py.split r).
Proof.
  intros r. subst r. destruct x as [|c x].
  - repeat split; constructor.
  - rewrite normalize_text_words by discriminate.
    destruct (normalize_text_tokens_normal (c :: x)) as [Hw Hn].
    rewrite split_join by exact Hw. repeat split.
    + eapply Forall_impl; [|apply (Forall_join normal_space Hn)].
      intros d [H1 H2]. apply negb_true_iff in H1. auto.
    + exact Hw.
Qed.

(** X7.  On text whose characters are code points below 256, where
    [str.lower] maps character by character, the address normalizer is
    the text normalizer followed by the removal of the tokens of the
    ignore vocabulary: the two orders in which they lower the case and
    delete the punctuation give the same text. *)
Theorem normalize_address_after_normalize_text (x : str) :
  normalize_address x =
  Py.join (py " ")
    (filter (fun w => negb (str_in w ADDRESS_TERMS_TO_IGNORE))
            (Py.split (normalize_text x))).
Proof.
  destruct x as [|c x]; [reflexivity|].
  rewrite normalize_address_words, normalize_text_words by discriminate.
  destruct (normalize_text_tokens_normal (c :: x)) as [Hw Hn].
  rewrite split_join by exact Hw. rewrite remove_punctuation_lower.
  f_equal. apply filter_ext_in. intros w Hin. unfold keep_word.
  rewrite Forall_forall in Hn.
  destruct (normal_fixed (Hn w Hin)) as [_ Hl]. now rewrite Hl.
Qed.

Lemma normalize_address_tokens (x : str) :
  x <> [] ->
  Py.split (normalize_address x)
  = filter keep_word (Py.split (Py.remove_punctuation (Py.lower x))).
Proof.
  intros Hx. rewrite normalize_address_words by exact Hx.
  apply split_join. apply Forall_filter_list, split_words.
Qed.

(** X8.  No token of a normalized address is a term of the ignore
    vocabulary. *)
Theorem normalize_address_drops_ignored_terms (x : str) :
  Forall (fun w => ~ In w ADDRESS_TERMS_TO_IGNORE)
         (Py.split (normalize_address x)).
Proof.
  destruct x as [|c x]; [constructor|].
  rewrite normalize_address_tokens by discriminate.
  apply Forall_forall. intros w Hin. apply filter_In in Hin as [Hin Hk].
  assert (Hn : Forall normal_char w).
  { assert (H : Forall (Forall normal_char)
                       (Py.split (Py.remove_punctuation (Py.lower (c :: x))))).
    { apply Forall_split_from; [constructor|].
      apply remove_punctuation_lower_normal. }
    rewrite Forall_forall in H. now apply H. }
  destruct (normal_fixed Hn) as [_ Hl].
  unfold keep_word in Hk. rewrite Hl in Hk. apply negb_true_iff in Hk.
  intros Hw. apply str_in_In in Hw. congruence.
Qed.

(** ** Pincode extractor: what it returns *)

Lemma In_firstn (A : Type) (x : A) (n : nat) (l : list A) :
  In x (firstn n l) -> In x l.
Proof.
  intros H. rewrite <- (firstn_skipn n l). apply in_or_app. now left.
Qed.

Lemma In_skipn (A : Type) (x : A) (n : nat) (l : list A) :
  In x (skipn n l) -> In x l.
Proof.
  intros H. rewrite <- (firstn_skipn n l). apply in_or_app. now right.
Qed.

Lemma extract_pincode_search (a : str) :
  extract_pincode a =
  match re.search_d6 (Py.remove_spaces a) with
  | Some pincode => pincode
  | None => []
  end.
Proof. destruct a; reflexivity. Qed.

(** X9.  The pincode returned is the empty string or six decimal digits,
    each of them a character of the address. *)
Theorem extract_pincode_six_digits_or_empty (a : str) :
  extract_pincode a = []
  \/ (length (extract_pincode a) = 6
      /\ forallb Py.isdigit (extract_pincode a) = true
      /\ incl (extract_pincode a) a).
Proof.
  rewrite extract_pincode_search.
  destruct (search_d6_leftmost (Py.remove_spaces a))
    as [[Hn _] | [i [[H1 H2] [_ Hs]]]]; rewrite ?Hn, ?Hs; [now left|].
  right. split; [exact H1|]. split; [exact H2|].
  intros d Hd. apply In_firstn, In_skipn in Hd.
  unfold Py.remove_spaces in Hd. now apply filter_In in Hd.
Qed.

(** X10.  The space characters of an address play no part in the search
    for its pincode: two addresses that are equal once their spaces are
    removed have the same pincode. *)
Theorem extract_pincode_ignores_spaces (a b : str) :
  Py.remove_spaces a = Py.remove_spaces b ->
  extract_pincode a = extract_pincode b.
Proof. intros H. rewrite !extract_pincode_search, H. reflexivity. Qed.

Lemma extract_pincode_ignores_spaces_witness :
  extract_pincode (py "Pune 411 001") = extract_pincode (py "Pune411001").
Proof. apply extract_pincode_ignores_spaces. reflexivity. Defined.

(** ** Binary64: quotients of a length *)

Section Binary64Quotients.

Local Open Scope Z_scope.

Lemma float_of_nat_finite (n : nat) :
  (0 < n)%nat -> Z.of_nat n < 2 ^ 53 ->
  exists m e, Prim2SF (float_of_nat n) = S754_finite false m e.
Proof.
  intros Hn Hb. unfold float_of_nat.
  destruct (Z.of_nat n) as [|p|p] eqn:Ep; try lia.
  assert (Hd : Zpos (digits2_pos p) <= 53)
    by (apply (@digits2_pos_bound p 53%nat); lia).
  rewrite of_uint63_spec, of_Z_spec, Z.mod_small
    by (change wB with (2 ^ 63); lia).
  change prec with 53. change emax with 1024.
  rewrite binary_normalize_pos by exact Hd. eauto.
Qed.

Lemma float_of_nat_div_self (n : nat) :
  (0 < n)%nat -> Z.of_nat n < 2 ^ 53 ->
  (float_of_nat n / float_of_nat n)%float = 1%float.
Proof.
  intros Hn Hb. destruct (float_of_nat_finite Hn Hb) as [m [e H]].
  apply Prim2SF_inj. rewrite div_spec, H. apply SFdiv_self.
Qed.

Lemma float_zero_div (n : nat) :
  (0 < n)%nat -> Z.of_nat n < 2 ^ 53 ->
  (0 / float_of_nat n)%float = 0%float.
Proof.
  intros Hn Hb. destruct (float_of_nat_finite Hn Hb) as [m [e H]].
  apply Prim2SF_inj. rewrite div_spec, H. reflexivity.
Qed.

End Binary64Quotients.

(** ** [SequenceMatcher]: sequences without a common element *)

Lemma indices_from_notin (bs : str) (i : nat) (c : ascii) :
  ~ In c bs -> indices_from i bs c = [].
Proof.
  revert i. induction bs as [|elt bs IH]; intros i H; simpl; [reflexivity|].
  destruct (Ascii.eqb_spec c elt) as [->|_].
  - exfalso. apply H. now left.
  - apply IH. intros Hin. apply H. now right.
Qed.

Lemma b2j_notin (b : str) (c : ascii) : ~ In c b -> difflib.b2j b c = [].
Proof.
  intros H. rewrite b2j_indices, indices_from_notin by exact H.
  destruct (difflib.popular b []); reflexivity.
Qed.

Section Disjoint.

Variables a b : str.

Hypothesis disjoint : forall c, In c a -> ~ In c b.

Lemma main_loop_disjoint (blo bhi : nat) (best : difflib.Match)
  (l : list nat) :
  (forall i, In i l -> i < length a) ->
  fold_left (difflib.row a b blo bhi) l (fun _ => 0, best)
  = (fun _ => 0, best).
Proof.
  induction l as [|i l IH]; intros Hl; [reflexivity|].
  cbn [fold_left]. unfold difflib.row at 2. cbn [fst snd].
  rewrite b2j_notin.
  - cbn [difflib.inner_loop]. apply IH. intros j Hj. apply Hl. now right.
  - apply disjoint. apply nth_In. apply Hl. now left.
Qed.

Lemma first_elements_differ :
  a <> [] -> b <> [] ->
  Ascii.eqb (difflib.a_at a 0) (difflib.b_at b 0) = false.
Proof.
  intros Ha Hb. apply Ascii.eqb_neq. intros E.
  destruct a as [|c a'], b as [|d b']; try congruence.
  cbn in E. subst d. apply (disjoint c); now left.
Qed.

Lemma find_longest_match_disjoint :
  difflib.find_longest_match a b 0 (length a) 0 (length b) = (0, 0, 0).
Proof.
  unfold difflib.find_longest_match, difflib.longest_junk_free.
  rewrite main_loop_disjoint
    by (intros i Hi; apply in_seq in Hi; lia).
  cbn [difflib.extend_left snd]. rewrite Nat.sub_0_r. cbn [Nat.add].
  assert (R : forall junk,
             difflib.extend_right a b junk (length a) (length b) 0 0 0
             = (0, 0, 0)).
  { intros junk. destruct (length a) as [|r] eqn:La; [reflexivity|].
    cbn [difflib.extend_right Nat.add].
    destruct (0 <? length b) eqn:Lb; [|reflexivity].
    apply Nat.ltb_lt in Lb.
    rewrite first_elements_differ, andb_false_r; [reflexivity | |];
      intros E; rewrite E in *; simpl in *; lia. }
  rewrite R. cbn [difflib.extend_left]. cbn [Nat.add].
  rewrite Nat.sub_0_r. apply R.
Qed.

Lemma get_matching_blocks_disjoint :
  difflib.get_matching_blocks a b = [(length a, length b, 0)].
Proof.
  unfold difflib.get_matching_blocks, difflib.fuel.
  replace (2 * length a + 1) with (S (2 * length a)) by lia.
  cbn [difflib.blocks_loop]. rewrite find_longest_match_disjoint.
  cbn [Nat.eqb negb].
  destruct (2 * length a); reflexivity.
Qed.

Lemma ratio_disjoint :
  difflib.ratio a b = difflib.calculate_ratio 0 (length a + length b).
Proof.
  unfold difflib.ratio. rewrite get_matching_blocks_disjoint. reflexivity.
Qed.

End Disjoint.

Lemma similarity_ratio_no_common (a b : str) :
  (forall c, In c a -> ~ In c b) ->
  (Z.of_nat (length a + length b) < 2 ^ 53)%Z ->
  similarity_ratio a b = 0%float.
Proof.
  intros Hd Hb. unfold similarity_ratio.
  destruct (is_empty a || is_empty b) eqn:E; [reflexivity|].
  rewrite ratio_disjoint by exact Hd. unfold difflib.calculate_ratio.
  assert (Hn : 0 < length a + length b)
    by (destruct a; [discriminate E | simpl; lia]).
  replace (length a + length b =? 0) with false
    by (symmetry; apply Nat.eqb_neq; lia).
  cbn [negb].
  replace (2 * float_of_nat 0)%float with 0%float by reflexivity.
  rewrite float_zero_div by assumption. reflexivity.
Qed.

(** X11.  Two strings without a common character have similarity 0; the
    lengths are bounded so that the floats hold their sum exactly. *)
Theorem similarity_ratio_disjoint (a b : str) :
  (forall c, In c a -> ~ In c b) ->
  (Z.of_nat (length a + length b) < 2 ^ 53)%Z ->
  similarity_ratio a b = 0%float.
Proof.
  intros Hd Hb. unfold similarity_ratio.
  destruct (is_empty a || is_empty b) eqn:E; [reflexivity|].
  (* no block matches, so the ratio is 2.0 * 0 / (len a + len b) *)
  rewrite ratio_disjoint by exact Hd. unfold difflib.calculate_ratio.
  assert (Hn : 0 < length a + length b)
    by (destruct a; [discriminate E | simpl; lia]).
  replace (length a + length b =? 0) with false
    by (symmetry; apply Nat.eqb_neq; lia).
  cbn [negb].
  replace (2 * float_of_nat 0)%float with 0%float by reflexivity.
  rewrite float_zero_div by assumption. reflexivity.
Qed.

Lemma similarity_ratio_disjoint_witness :
  similarity_ratio (py "abc") (py "xyz") = 0%float.
Proof.
  apply similarity_ratio_disjoint; [|vm_compute; reflexivity].
  intros c Ha Hb. simpl in Ha, Hb.
  repeat (destruct Ha as [<-|Ha]; [intuition discriminate|]).
  exact Ha.
Defined.

(** ** Address matcher: addresses with the same pincode and the same text *)

Lemma digit_char_table (c : ascii) :
  negb (Py.isdigit c)
  || (negb (Py.isspace c) && negb (Py.is_punctuation c)
      && Ascii.eqb (Py.lower_char c) c) = true.
Proof. destruct c as [[] [] [] [] [] [] [] []]; vm_compute; reflexivity. Qed.

Lemma digit_char (c : ascii) :
  Py.isdigit c = true ->
  Py.isspace c = false /\ Py.is_punctuation c = false /\ Py.lower_char c = c.
Proof.
  intros H. pose proof (digit_char_table c) as T. rewrite H in T.
  cbn [negb orb] in T. apply andb_true_iff in T as [T T3].
  apply andb_true_iff in T as [T1 T2].
  apply negb_true_iff in T1, T2. apply Ascii.eqb_eq in T3. auto.
Qed.

Lemma ignored_terms_without_digit :
  forallb (fun t => forallb (fun c => negb (Py.isdigit c)) t)
          ADDRESS_TERMS_TO_IGNORE = true.
Proof. reflexivity. Qed.

Lemma pincode_digit (a : str) :
  extract_pincode a <> [] -> exists d, In d a /\ Py.isdigit d = true.
Proof.
  rewrite extract_pincode_search.
  destruct (search_d6_leftmost (Py.remove_spaces a))
    as [[Hn _] | [i [[H1 H2] [_ Hs]]]]; rewrite ?Hn, ?Hs; [congruence|].
  intros _. destruct (firstn 6 (skipn i (Py.remove_spaces a))) as [|d w] eqn:E;
    [discriminate H1|].
  exists d. split.
  - assert (Hin : In d (firstn 6 (skipn i (Py.remove_spaces a))))
      by (rewrite E; now left).
    apply In_firstn, In_skipn in Hin. unfold Py.remove_spaces in Hin.
    now apply filter_In in Hin.
  - cbn [forallb] in H2. now apply andb_true_iff in H2.
Qed.

Lemma split_from_covers (s cur : str) (c : ascii) :
  Py.isspace c = false -> In c cur \/ In c s ->
  exists w, In w (Py.split_from cur s) /\ In c w.
Proof.
  intros Hc. revert cur. induction s as [|c0 t IH]; intros cur H;
    cbn [Py.split_from].
  - destruct H as [H|[]]. destruct cur as [|d cur]; [destruct H|].
    exists (rev (d :: cur)). split; [now left | now apply in_rev in H].
  - destruct (Py.isspace c0) eqn:E0.
    + destruct H as [H|[->|H]]; [| congruence |].
      * destruct cur as [|d cur]; [destruct H|].
        exists (rev (d :: cur)). split; [now left | now apply in_rev in H].
      * destruct (IH [] (or_intror H)) as [w [Hw Hcw]].
        exists w. split; [|exact Hcw]. destruct cur; [exact Hw | now right].
    + apply IH. destruct H as [H|[->|H]]; [left; now right | left; now left |].
      now right.
Qed.

Lemma normalize_address_keeps_pincode (a : str) :
  extract_pincode a <> [] -> normalize_address a <> [].
Proof.
  intros Hp. destruct (@pincode_digit a Hp) as [d [Hin Hd]].
  destruct (@digit_char d Hd) as [Hs [Hpu Hl]].
  assert (Ha : a <> []) by (intros ->; destruct Hin).
  rewrite normalize_address_words by exact Ha.
  assert (Hy : In d (Py.remove_punctuation (Py.lower a))).
  { apply filter_In. split; [|now rewrite Hpu].
    rewrite <- Hl. unfold Py.lower. now apply in_map. }
  destruct (@split_from_covers (Py.remove_punctuation (Py.lower a)) [] d Hs
              (or_intror Hy)) as [w [Hw Hdw]].
  fold (Py.split (Py.remove_punctuation (Py.lower a))) in Hw.
  assert (Hk : keep_word w = true).
  { unfold keep_word. apply negb_true_iff.
    destruct (str_in (Py.lower w) ADDRESS_TERMS_TO_IGNORE) eqn:E; [|reflexivity].
    apply str_in_In in E.
    pose proof ignored_terms_without_digit as T.
    rewrite forallb_forall in T. specialize (T _ E).
    rewrite forallb_forall in T.
    assert (Hdl : In d (Py.lower w))
      by (rewrite <- Hl; unfold Py.lower; now apply in_map).
    specialize (T _ Hdl). rewrite Hd in T. discriminate T. }
  intros E. apply join_nil in E.
  - assert (Hf : In w (filter keep_word
                         (Py.split (Py.remove_punctuation (Py.lower a)))))
      by (apply filter_In; auto).
    rewrite E in Hf. destruct Hf.
  - apply Forall_filter_list, split_words.
Qed.

Lemma words_length (ws : list str) :
  Forall word ws -> length ws <= length (Py.join (py " ") ws).
Proof.
  induction 1 as [|w ws [Hne _] Hws IH]; [apply Nat.le_refl|].
  rewrite join_cons_length.
  assert (0 < length w) by (destruct w; [congruence | simpl; lia]).
  destruct ws; simpl in *; lia.
Qed.

Lemma split_length (s : str) : length (Py.split s) <= length s.
Proof.
  etransitivity; [apply words_length, split_words|].
  apply (join_split_from_length s []).
Qed.

Lemma parts_score_same_tokens (a b : str) :
  (Z.of_nat (length a) < 2 ^ 53)%Z ->
  normalize_address b = normalize_address a ->
  parts_score a b
  = match significant_tokens a with [] => 0 | _ :: _ => 100 end%float.
Proof.
  intros Hb Hn. unfold parts_score. rewrite Hn.
  destruct (significant_tokens a) as [|t sig] eqn:E; [reflexivity|].
  rewrite filter_id.
  - rewrite float_of_nat_div_self; [reflexivity | simpl; lia |].
    assert (Hl : length (t :: sig) <= length a).
    { rewrite <- E. unfold significant_tokens.
      etransitivity; [apply filter_length_le|].
      etransitivity; [apply split_length|].
      apply normalize_address_length. }
    lia.
  - apply Forall_forall. intros u Hu. apply str_in_In.
    rewrite <- E in Hu. unfold significant_tokens in Hu.
    now apply filter_In in Hu.
Qed.

(** X12.  Two addresses in which the same pincode is found and whose
    normal forms are equal match: the weighted score is 0.4 * 100 +
    0.4 * 100 plus 0.2 * 100 when there is a token longer than 3, hence 80
    or 100.  In particular an address with a pincode matches itself.  The
    length is bounded so that the floats hold it exactly. *)
Theorem address_match_same_pincode_same_text (a b : str) :
  (Z.of_nat (length a) < 2 ^ 52)%Z ->
  extract_pincode a <> [] ->
  extract_pincode b = extract_pincode a ->
  normalize_address b = normalize_address a ->
  (final_score a b = 80%float \/ final_score a b = 100%float)
  /\ address_match a b = true.
Proof.
  intros Hb Hp Hpb Hn.
  assert (Ha : a <> []) by (intros ->; now apply Hp).
  assert (Hb' : b <> []) by (intros ->; apply Hp; now rewrite <- Hpb).
  assert (F : final_score a b
              = match significant_tokens a with
                | [] => 80
                | _ :: _ => 100
                end%float).
  { unfold final_score, pincode_score, similarity_score.
    rewrite parts_score_same_tokens by (assumption || lia).
    rewrite Hpb, Hn, str_eqb_refl, (is_empty_false Hp). cbn [negb andb].
    change (0 <? 100)%float with true. cbv iota.
    rewrite similarity_ratio_same.
    - destruct (significant_tokens a); reflexivity.
    - now apply normalize_address_keeps_pincode.
    - pose proof (normalize_address_length a). lia. }
  rewrite address_match_final_score, F.
  rewrite (is_empty_false Ha), (is_empty_false Hb'). cbn [orb].
  destruct (significant_tokens a); split; auto.
Qed.

Lemma address_match_same_pincode_same_text_witness :
  (final_score (py "12 MG Road, Pune 411001") (py "12 mg ROAD, pune: 411001.")
   = 80%float
   \/ final_score (py "12 MG Road, Pune 411001")
                  (py "12 mg ROAD, pune: 411001.") = 100%float)
  /\ address_match (py "12 MG Road, Pune 411001")
                   (py "12 mg ROAD, pune: 411001.") = true.
Proof.
  apply address_match_same_pincode_same_text.
  - vm_compute. reflexivity.
  - vm_compute. discriminate.
  - vm_compute. reflexivity.
  - vm_compute. reflexivity.
Defined.

(** ** Field extraction *)

Lemma dict_get_set_same (k : string) (v : str) (d : dict) :
  dict_get k (dict_set k v d) = Some v.
Proof.
  induction d as [|[k' v'] d IH]; simpl; [now rewrite String.eqb_refl|].
  destruct (String.eqb k' k) eqn:E; simpl.
  - now rewrite String.eqb_refl.
  - now rewrite E.
Qed.

Lemma dict_get_set_other (k k' : string) (v : str) (d : dict) :
  k <> k' -> dict_get k (dict_set k' v d) = dict_get k d.
Proof.
  intros Hk. induction d as [|[k0 v0] d IH]; simpl.
  - now rewrite (proj2 (String.eqb_neq k' k)) by congruence.
  - destruct (String.eqb k0 k') eqn:E; simpl.
    + apply String.eqb_eq in E. subst k0.
      now rewrite (proj2 (String.eqb_neq k' k)) by congruence.
    + destruct (String.eqb k0 k); [reflexivity | exact IH].
Qed.

Lemma dict_has_set (k k' : string) (v : str) (d : dict) :
  dict_has k d = true -> dict_has k (dict_set k' v d) = true.
Proof.
  unfold dict_has. destruct (String.eqb_spec k k') as [->|Hk].
  - now rewrite dict_get_set_same.
  - now rewrite dict_get_set_other.
Qed.

Lemma extract_text_loop_cons (d : dict) (bx : detection)
  (boxes : list detection) :
  extract_text_loop d (bx :: boxes) =
  extract_text_loop
    (if roi_empty bx then d
     else match ocr_text bx with
          | [] => d
          | text => dict_set (field_class bx) (Py.join (py " ") text) d
          end) boxes.
Proof. reflexivity. Qed.

Lemma extract_text_loop_has (k : string) (boxes : list detection) :
  forall d, dict_has k d = true ->
            dict_has k (extract_text_loop d boxes) = true.
Proof.
  induction boxes as [|bx boxes IH]; intros d H; [exact H|].
  rewrite extract_text_loop_cons. apply IH.
  destruct (roi_empty bx); [exact H|].
  destruct (ocr_text bx); [exact H | now apply dict_has_set].
Qed.

Lemma extract_text_loop_unread (k : string) (boxes : list detection) :
  (forall bx, In bx boxes -> field_class bx = k -> ~ usable bx) ->
  forall d, dict_get k (extract_text_loop d boxes) = dict_get k d.
Proof.
  induction boxes as [|bx boxes IH]; intros H d; [reflexivity|].
  rewrite extract_text_loop_cons, IH by (intros; apply H; auto; now right).
  destruct (roi_empty bx) eqn:Er; [reflexivity|].
  destruct (ocr_text bx) as [|t l] eqn:Et; [reflexivity|].
  apply dict_get_set_other. intros E.
  apply (H bx (or_introl eq_refl)); [now symmetry|].
  split; [exact Er | rewrite Et; discriminate].
Qed.

Lemma extract_text_has (k : string) (p : perception) :
  dict_has k empty_fields = true -> dict_has k (extract_text p) = true.
Proof.
  intros H. destruct p; try exact H. now apply extract_text_loop_has.
Qed.

Lemma extract_text_fields (p : perception) :
  exists n u a,
    dict_get "name" (extract_text p) = Some n
    /\ dict_get "uid" (extract_text p) = Some u
    /\ dict_get "address" (extract_text p) = Some a
    /\ forall df,
         calculate_match_score_dict (extract_text p) df
         = calculate_match_score {| name := n; uid := u; address := a |} df.
Proof.
  pose proof (@extract_text_has "name" p eq_refl) as Hn.
  pose proof (@extract_text_has "uid" p eq_refl) as Hu.
  pose proof (@extract_text_has "address" p eq_refl) as Ha.
  unfold calculate_match_score_dict. cbn [forallb]. rewrite Hn, Hu, Ha.
  unfold dict_has in Hn, Hu, Ha.
  destruct (dict_get "name" (extract_text p)) as [n|]; [|discriminate].
  destruct (dict_get "uid" (extract_text p)) as [u|]; [|discriminate].
  destruct (dict_get "address" (extract_text p)) as [a|]; [|discriminate].
  exists n, u, a. auto.
Qed.

(** X14.  Whatever the image library, the detector and the reader give,
    the dict that [extract_text] returns has the keys "name", "uid" and
    "address", so [calculate_match_score] never takes its branch for a
    missing key on it. *)
Theorem extract_text_has_required_keys (p : perception) :
  exists n u a,
    dict_get "name" (extract_text p) = Some n
    /\ dict_get "uid" (extract_text p) = Some u
    /\ dict_get "address" (extract_text p) = Some a
    /\ forall df,
         calculate_match_score_dict (extract_text p) df
         = calculate_match_score {| name := n; uid := u; address := a |} df.
Proof.
  (* the three keys are there from the start, and no assignment of the
     loop removes a key *)
  pose proof (@extract_text_has "name" p eq_refl) as Hn.
  pose proof (@extract_text_has "uid" p eq_refl) as Hu.
  pose proof (@extract_text_has "address" p eq_refl) as Ha.
  unfold calculate_match_score_dict. cbn [forallb]. rewrite Hn, Hu, Ha.
  unfold dict_has in Hn, Hu, Ha.
  destruct (dict_get "name" (extract_text p)) as [n|]; [|discriminate].
  destruct (dict_get "uid" (extract_text p)) as [u|]; [|discriminate].
  destruct (dict_get "address" (extract_text p)) as [a|]; [|discriminate].
  exists n, u, a. auto.
Qed.

(** X15.  When no identifier is read from the image (the image cannot be
    opened, no field is detected, a call raises, or no box of class "uid"
    has a region and a text), the match score is 0 against every
    reference table. *)
Theorem unread_uid_scores_zero (p : perception) (df : list ReferenceRecord) :
  (forall boxes, p = detected boxes ->
     forall bx, In bx boxes -> field_class bx = "uid"%string -> ~ usable bx) ->
  calculate_match_score_dict (extract_text p) df = 0%float.
Proof.
  intros H. destruct (extract_text_fields p) as [n [u [a [_ [Hu [_ Hs]]]]]].
  rewrite Hs. assert (E : u = []).
  { destruct p as [| |boxes|]; try (cbn in Hu; congruence).
    cbn [extract_text] in Hu.
    rewrite extract_text_loop_unread in Hu by (apply (H boxes eq_refl)).
    cbn in Hu. congruence. }
  subst u. reflexivity.
Qed.

Lemma unread_uid_scores_zero_witness :
  calculate_match_score_dict
    (extract_text
       (detected [{| field_class := "name"; roi_empty := false;
                     ocr_text := [py "Ravi"; py "Kumar"] |};
                  {| field_class := "uid"; roi_empty := false;
                     ocr_text := [] |}]))
    [{| UID := Text (py "123456789012"); Name := Text (py "Ravi Kumar");
        Address := Text (py "Pune") |}]
  = 0%float.
Proof.
  apply unread_uid_scores_zero. intros boxes E bx Hin Hc [_ Ht].
  injection E as <-. destruct Hin as [<-|[<-|[]]]; [discriminate Hc|].
  now apply Ht.
Defined.

(** X16.  The last box of a class that is read decides the field: its
    strings, joined by spaces, replace what earlier boxes of the class
    gave. *)
Theorem extract_text_last_box_wins (boxes rest : list detection)
  (bx : detection) :
  usable bx ->
  (forall r, In r rest -> field_class r = field_class bx -> ~ usable r) ->
  dict_get (field_class bx) (extract_text (detected (boxes ++ bx :: rest)))
  = Some (Py.join (py " ") (ocr_text bx)).
Proof.
  intros [Hr Ht] Hrest. cbn [extract_text]. unfold extract_text_loop.
  rewrite fold_left_app. cbn [fold_left].
  fold (extract_text_loop empty_fields boxes).
  match goal with
  | |- dict_get _ (fold_left ?f rest ?d) = _ =>
      change (fold_left f rest d) with (extract_text_loop d rest)
  end.
  rewrite extract_text_loop_unread by exact Hrest.
  rewrite Hr. destruct (ocr_text bx) as [|t l]; [congruence|].
  apply dict_get_set_same.
Qed.

Lemma extract_text_last_box_wins_witness :
  dict_get "address"
    (extract_text
       (detected ([{| field_class := "address"; roi_empty := false;
                      ocr_text := [py "12 MG Road"] |}]
                  ++ {| field_class := "address"; roi_empty := false;
                        ocr_text := [py "Pune"; py "411001"] |}
                  :: [{| field_class := "uid"; roi_empty := false;
                         ocr_text := [py "1234 5678 9012"] |}])))
  = Some (py "Pune 411001").
Proof.
  apply (@extract_text_last_box_wins _ _
           {| field_class := "address"; roi_empty := false;
              ocr_text := [py "Pune"; py "411001"] |}).
  - split; [reflexivity | discriminate].
  - intros r [<-|[]] Hc. discriminate Hc.
Defined.

(** ** The batch of a path *)

Lemma split_on_from_piece (sep : ascii) (w s cur : str) :
  ~ In sep w ->
  split_on_from sep cur (w ++ s) = split_on_from sep (rev w ++ cur) s.
Proof.
  revert cur. induction w as [|c w IH]; intros cur Hw; [reflexivity|].
  cbn [app split_on_from].
  destruct (Ascii.eqb_spec c sep) as [->|_]; [exfalso; apply Hw; now left|].
  rewrite IH by (intros H; apply Hw; now right).
  cbn [rev]. now rewrite <- app_assoc.
Qed.

Lemma split_on_from_last (sep : ascii) (w cur : str) :
  ~ In sep w -> split_on_from sep cur w = [rev cur ++ w].
Proof.
  intros Hw. rewrite <- (app_nil_r w) at 1.
  rewrite split_on_from_piece by exact Hw. cbn [split_on_from].
  now rewrite rev_app_distr, rev_involutive.
Qed.

Lemma split_on_from_separator (sep : ascii) (dir rest cur : str) :
  exists pre,
    split_on_from sep cur (dir ++ sep :: rest)
    = pre ++ split_on_from sep [] rest.
Proof.
  revert cur. induction dir as [|c dir IH]; intros cur; cbn [app split_on_from].
  - rewrite Ascii.eqb_refl. exists [rev cur]. reflexivity.
  - destruct (Ascii.eqb c sep).
    + destruct (IH []) as [pre E]. exists (rev cur :: pre). now rewrite E.
    + apply IH.
Qed.

(** X17.  For a path of the form [dir/batch/file], where neither [batch]
    nor [file] holds a separator, [process_data] takes [batch] as the
    batch, whatever [dir] is. *)
Theorem process_data_batch_of_path (sep : ascii)
  (dir batch file excel_path : str) :
  ~ In sep batch -> ~ In sep file -> excel_path <> [] ->
  process_data_batch_id sep (Some (dir ++ sep :: batch ++ sep :: file))
                        (Some excel_path)
  = Some batch.
Proof.
  intros Hb Hf He. unfold process_data_batch_id.
  rewrite (is_empty_false He), orb_false_r.
  replace (is_empty (dir ++ sep :: batch ++ sep :: file)) with false
    by (destruct dir; reflexivity).
  unfold split_on.
  destruct (split_on_from_separator sep dir (batch ++ sep :: file) [])
    as [pre E].
  rewrite E, split_on_from_piece by exact Hb.
  cbn [split_on_from]. rewrite Ascii.eqb_refl, app_nil_r, rev_involutive.
  rewrite split_on_from_last by exact Hf. cbn [rev app].
  rewrite length_app. cbn [length].
  replace (2 <=? length pre + 2) with true
    by (symmetry; apply Nat.leb_le; lia).
  replace (length pre + 2 - 2) with (length pre) by lia.
  rewrite app_nth2, Nat.sub_diag by lia. reflexivity.
Qed.

Lemma process_data_batch_of_path_witness :
  process_data_batch_id "/"%char
    (Some (py "uploads" ++ "/"%char :: py "0b1e-77" ++ "/"%char :: py "a.zip"))
    (Some (py "uploads/0b1e-77/ref.xlsx"))
  = Some (py "0b1e-77").
Proof.
  apply process_data_batch_of_path; try discriminate;
    intros H; repeat (destruct H as [H|H]; [discriminate H|]); exact H.
Defined.

(** ** Address matcher: addresses without a common character *)

Lemma split_from_chars (s cur w : str) (c : ascii) :
  In w (Py.split_from cur s) -> In c w -> In c cur \/ In c s.
Proof.
  revert cur. induction s as [|c0 t IH]; intros cur Hw Hc;
    cbn [Py.split_from] in Hw.
  - destruct cur as [|d cur]; [destruct Hw|].
    destruct Hw as [<-|[]]. left. now apply in_rev.
  - destruct (Py.isspace c0).
    + destruct cur as [|d cur].
      * destruct (IH [] Hw Hc) as [[]|H]. right. now right.
      * destruct Hw as [<-|Hw]; [left; now apply in_rev|].
        destruct (IH [] Hw Hc) as [[]|H]. right. now right.
    + destruct (IH (c0 :: cur) Hw Hc) as [[<-|H]|H].
      * right. now left.
      * now left.
      * right. now right.
Qed.

Lemma In_join (sep w : str) (ws : list str) (c : ascii) :
  In w ws -> In c w -> In c (Py.join sep ws).
Proof.
  intros Hw Hc. induction ws as [|w0 ws IH]; [destruct Hw|].
  destruct ws as [|w1 ws].
  - destruct Hw as [<-|[]]. exact Hc.
  - change (Py.join sep (w0 :: w1 :: ws))
      with (w0 ++ sep ++ Py.join sep (w1 :: ws)).
    apply in_or_app. destruct Hw as [<-|Hw]; [now left|].
    right. apply in_or_app. right. now apply IH.
Qed.

(** A decimal digit of an address is still there once it is normalized. *)
Lemma normalize_address_keeps_digit (a : str) (d : ascii) :
  In d a -> Py.isdigit d = true -> In d (normalize_address a).
Proof.
  intros Hin Hd. destruct (@digit_char d Hd) as [Hs [Hpu Hl]].
  assert (Ha : a <> []) by (intros ->; destruct Hin).
  rewrite normalize_address_words by exact Ha.
  assert (Hy : In d (Py.remove_punctuation (Py.lower a))).
  { apply filter_In. split; [|now rewrite Hpu].
    rewrite <- Hl. unfold Py.lower. now apply in_map. }
  destruct (@split_from_covers (Py.remove_punctuation (Py.lower a)) [] d Hs
              (or_intror Hy)) as [w [Hw Hdw]].
  fold (Py.split (Py.remove_punctuation (Py.lower a))) in Hw.
  apply (@In_join _ w); [|exact Hdw]. apply filter_In. split; [exact Hw|].
  unfold keep_word. apply negb_true_iff.
  destruct (str_in (Py.lower w) ADDRESS_TERMS_TO_IGNORE) eqn:E; [|reflexivity].
  apply str_in_In in E.
  pose proof ignored_terms_without_digit as T.
  rewrite forallb_forall in T. specialize (T _ E).
  rewrite forallb_forall in T.
  assert (Hdl : In d (Py.lower w))
    by (rewrite <- Hl; unfold Py.lower; now apply in_map).
  specialize (T _ Hdl). rewrite Hd in T. discriminate T.
Qed.

Lemma extract_pincode_head (a : str) (d : ascii) (w : str) :
  extract_pincode a = d :: w -> In d a /\ Py.isdigit d = true.
Proof.
  rewrite extract_pincode_search.
  destruct (search_d6_leftmost (Py.remove_spaces a))
    as [[Hn _] | [i [[H1 H2] [_ Hs]]]]; rewrite ?Hn, ?Hs; [discriminate|].
  intros E. rewrite E in H2. split.
  - assert (Hin : In d (firstn 6 (skipn i (Py.remove_spaces a))))
      by (rewrite E; now left).
    apply In_firstn, In_skipn in Hin. unfold Py.remove_spaces in Hin.
    now apply filter_In in Hin.
  - cbn [forallb] in H2. now apply andb_true_iff in H2.
Qed.

Lemma filter_none (A : Type) (f : A -> bool) (l : list A) :
  (forall x, In x l -> f x = false) -> filter f l = [].
Proof.
  induction l as [|x l IH]; intros H; [reflexivity|]. cbn [filter].
  rewrite (H x (or_introl eq_refl)). apply IH. intros y Hy. apply H. now right.
Qed.

Section NoCommonCharacter.

Variables a b : str.

Hypothesis no_common :
  forall c, In c (normalize_address a) -> ~ In c (normalize_address b).

Hypothesis short : (Z.of_nat (length a + length b) < 2 ^ 53)%Z.

Lemma pincode_score_no_common : pincode_score a b = 0%float.
Proof.
  unfold pincode_score.
  destruct (extract_pincode a) as [|d w] eqn:Ea; [reflexivity|].
  destruct (extract_pincode b) as [|d' w'] eqn:Eb; [reflexivity|].
  cbn [is_empty negb andb].
  destruct (str_eqb (d :: w) (d' :: w')) eqn:E; [|reflexivity].
  apply str_eqb_eq in E. injection E as <- <-.
  destruct (extract_pincode_head _ Ea) as [Ha Hd].
  destruct (extract_pincode_head _ Eb) as [Hb _].
  exfalso. apply (no_common d); now apply normalize_address_keeps_digit.
Qed.

Lemma similarity_score_no_common : similarity_score a b = 0%float.
Proof.
  unfold similarity_score. apply similarity_ratio_no_common; [exact no_common|].
  pose proof (normalize_address_length a).
  pose proof (normalize_address_length b). lia.
Qed.

Lemma parts_score_no_common : parts_score a b = 0%float.
Proof.
  unfold parts_score.
  destruct (significant_tokens a) as [|t sig] eqn:E; [reflexivity|].
  rewrite filter_none.
  - replace (float_of_nat (length (@nil str))) with 0%float by reflexivity.
    rewrite float_zero_div; [reflexivity | simpl; lia |].
    assert (Hl : length (t :: sig) <= length a).
    { rewrite <- E. unfold significant_tokens.
      etransitivity; [apply filter_length_le|].
      etransitivity; [apply split_length|].
      apply normalize_address_length. }
    lia.
  - intros u Hu. rewrite <- E in Hu. unfold significant_tokens in Hu.
    apply filter_In in Hu as [Hu _].
    destruct (str_in u (Py.split (normalize_address b))) eqn:Ein;
      [|reflexivity].
    apply str_in_In in Ein.
    pose proof (split_words (normalize_address a)) as Hw.
    rewrite Forall_forall in Hw. destruct (Hw u Hu) as [Hne _].
    destruct u as [|c u]; [congruence|]. exfalso.
    apply (no_common c).
    + destruct (@split_from_chars _ [] _ c Hu (or_introl eq_refl))
        as [[]|H]; exact H.
    + destruct (@split_from_chars _ [] _ c Ein (or_introl eq_refl))
        as [[]|H]; exact H.
Qed.

Lemma final_score_no_common : final_score a b = 0%float.
Proof.
  unfold final_score.
  rewrite pincode_score_no_common, similarity_score_no_common,
    parts_score_no_common.
  reflexivity.
Qed.

End NoCommonCharacter.

(** X18.  Two addresses whose normal forms have no character in common
    never match: the pincode, similarity and parts scores are all 0.  This
    holds in particular when one of the two normalizes to the empty
    string.  The lengths are bounded so that the floats hold them
    exactly. *)
Theorem address_match_no_common_character (a b : str) :
  (forall c, In c (normalize_address a) -> ~ In c (normalize_address b)) ->
  (Z.of_nat (length a + length b) < 2 ^ 53)%Z ->
  address_match a b = false.
Proof.
  intros Hc Hs. rewrite address_match_final_score.
  destruct (is_empty a || is_empty b); [reflexivity|].
  rewrite final_score_no_common by assumption. reflexivity.
Qed.

Lemma address_match_no_common_character_witness :
  address_match (py "Near Road") (py "Near Road") = false.
Proof.
  apply address_match_no_common_character; [|vm_compute; reflexivity].
  intros c H. destruct H.
Defined.

(** ** Address matcher: the three scores and the threshold *)

Lemma pincode_of_extract_pincode (a : str) : pincode_of a (extract_pincode a).
Proof.
  unfold pincode_of, extract_pincode. destruct a as [|c a].
  - left. split; [reflexivity | exact six_digits_at_nil].
  - cbn [is_empty].
    destruct (search_d6_leftmost (Py.remove_spaces (c :: a)))
      as [[Hn Hall] | [i [Hi [Hmin Hs]]]].
    + left. rewrite Hn. split; [reflexivity | exact Hall].
    + right. exists i. rewrite Hs. repeat split; auto; apply Hi.
Qed.

Lemma pincode_of_functional (a w w' : str) :
  pincode_of a w -> pincode_of a w' -> w = w'.
Proof.
  unfold pincode_of.
  intros [[-> Hn] | [i [Hi [Hm ->]]]] [[-> Hn'] | [j [Hj [Hm' ->]]]].
  - reflexivity.
  - destruct (Hn j Hj).
  - destruct (Hn' i Hi).
  - assert (E : i = j).
    { destruct (lt_eq_lt_dec i j) as [[L|E]|L];
        [destruct (Hm' i L Hi) | exact E | destruct (Hm j L Hj)]. }
    now subst.
Qed.

Lemma address_tokens_keep_word (a : str) :
  address_tokens a
  = filter keep_word (Py.split (Py.remove_punctuation (Py.lower a))).
Proof.
  unfold address_tokens. apply filter_ext_in. intros w Hin. unfold keep_word.
  assert (H : Forall (Forall normal_char)
                     (Py.split (Py.remove_punctuation (Py.lower a)))).
  { apply Forall_split_from; [constructor|].
    apply remove_punctuation_lower_normal. }
  rewrite Forall_forall in H.
  destruct (normal_fixed (H w Hin)) as [_ Hl]. now rewrite Hl.
Qed.

Lemma normalize_address_address_tokens (a : str) :
  normalize_address a = Py.join (py " ") (address_tokens a)
  /\ Py.split (normalize_address a) = address_tokens a.
Proof.
  rewrite address_tokens_keep_word. destruct a as [|c a].
  - split; reflexivity.
  - split; [apply normalize_address_words | apply normalize_address_tokens];
      discriminate.
Qed.

Lemma ratio_matched_characters (x y : str) :
  x <> [] ->
  difflib.ratio x y
  = (2 * float_of_nat (matched_characters x y)
     / float_of_nat (length x + length y))%float.
Proof.
  intros Hx. unfold difflib.ratio, difflib.calculate_ratio, matched_characters.
  assert (Hn : (length x + length y =? 0) = false).
  { apply Nat.eqb_neq. destruct x; simpl; [congruence | lia]. }
  rewrite Hn. cbn [negb]. do 3 f_equal.
  induction (difflib.get_matching_blocks x y) as [|m l IH]; simpl;
    [reflexivity | now rewrite IH].
Qed.

Lemma similarity_ratio_matched_characters (x y : str) :
  similarity_ratio x y
  = if is_empty x || is_empty y then 0%float
    else (2 * float_of_nat (matched_characters x y)
          / float_of_nat (length x + length y) * 100)%float.
Proof.
  unfold similarity_ratio. destruct x as [|c x]; [reflexivity|].
  cbn [is_empty orb]. destruct (is_empty y); [reflexivity|].
  rewrite ratio_matched_characters by discriminate. reflexivity.
Qed.

(** C6, as the code has it.  [address_match] is false when either
    address is empty.  Otherwise it tells whether the weighted score
    reaches 70, where: the pincode of an address is the six digits at the
    leftmost position where six decimal digits follow each other once its
    space characters are removed, or is empty; the pincode score is 100
    when both pincodes are non-empty and equal, and 0 otherwise; the tokens
    of an address are its words, lowered and without punctuation, that are
    not in the ignore vocabulary; the similarity score is, on the tokens
    joined by single spaces, 0 when one text is empty and otherwise twice
    the number of characters in the matching blocks of [SequenceMatcher],
    divided by the sum of the lengths, times 100; the parts score is the
    share, times 100, of the tokens of the first address longer than 3
    that stand among the tokens of the second, or 0 without such a token;
    and the weights are 0.4, 0.4 and 0.2 on the pincode, similarity and
    parts scores when the pincode score is positive, and 0.6 and 0.4 on
    the similarity and parts scores otherwise. *)
Theorem address_match_weighted_threshold (a b wa wb : str) :
  pincode_of a wa -> pincode_of b wb ->
  address_match a b =
  if is_empty a || is_empty b then false
  else (70 <=? weighted_score wa wb (address_tokens a) (address_tokens b))%float.
Proof.
  intros Ha Hb.
  (* the pincode of an address is unique, and [extract_pincode] returns it *)
  assert (Ea : wa = extract_pincode a)
    by (eapply pincode_of_functional;
        [exact Ha | apply pincode_of_extract_pincode]).
  assert (Eb : wb = extract_pincode b)
    by (eapply pincode_of_functional;
        [exact Hb | apply pincode_of_extract_pincode]).
  subst wa wb.
  (* the normalized address is its tokens joined, and splits into them *)
  destruct (normalize_address_address_tokens a) as [Ja Sa].
  destruct (normalize_address_address_tokens b) as [Jb Sb].
  unfold address_match, weighted_score.
  destruct (is_empty a || is_empty b); [reflexivity|].
  cbv zeta. rewrite Sa, Sb, similarity_ratio_matched_characters, Ja, Jb.
  destruct (filter (fun t => 3 <? length t) (address_tokens a));
    reflexivity.
Qed.

Lemma address_match_weighted_threshold_witness :
  address_match (py "12 MG Road, Pune 411001")
                (py "Flat 4, 12 mg ROAD, pune: 411 001.")
  = (70 <=? weighted_score (py "411001") (py "411001")
              (address_tokens (py "12 MG Road, Pune 411001"))
              (address_tokens (py "Flat 4, 12 mg ROAD, pune: 411 001.")))%float.
Proof.
  apply (@address_match_weighted_threshold
           (py "12 MG Road, Pune 411001")
           (py "Flat 4, 12 mg ROAD, pune: 411 001.")
           (py "411001") (py "411001")).
  - right. exists 13. split; [split; reflexivity|]. split; [|reflexivity].
    intros i' Hlt.
    do 13 (destruct i' as [|i'];
           [intros [_ H]; vm_compute in H; discriminate H|]).
    lia.
  - right. exists 20. split; [split; reflexivity|]. split; [|reflexivity].
    intros i' Hlt.
    do 20 (destruct i' as [|i'];
           [intros [_ H]; vm_compute in H; discriminate H|]).
    lia.
Defined.

(** C6 as stated fails where the pincode is not computed as specified.
    The address "123 456 7" holds no run of exactly six digits, so that
    its pincode as specified is empty, the pincode score 0 and the
    weighted score 0.6 * 100 + 0.4 * 0 = 60, below 70; but the code
    removes the spaces, finds "123456" at the head of a run of seven
    digits, scores 0.4 * 100 + 0.4 * 100 + 0.2 * 0 = 80, and the address
    matches itself. *)
Lemma address_match_pincode_counterexample :
  let x := py "123 456 7" in
  pincode_as_specified x = []
  /\ weighted_score (pincode_as_specified x) (pincode_as_specified x)
                    (address_tokens x) (address_tokens x) = 60%float
  /\ (70 <=? weighted_score (pincode_as_specified x) (pincode_as_specified x)
               (address_tokens x) (address_tokens x))%float = false
  /\ extract_pincode x = py "123456"
  /\ weighted_score (extract_pincode x) (extract_pincode x)
                    (address_tokens x) (address_tokens x) = 80%float
  /\ address_match x x = true.
Proof. repeat split; vm_compute; reflexivity. Qed.
